(** * Document Update ([src/update.js]) over a model of the JavaScript it uses

    The file embeds [module.exports = function create(options)] and the
    function [doc => ...] it returns.  JavaScript objects that the code
    shares and writes to (the document, the elements of [edgeMap], the
    object handed back to the caller) live in a heap of property tables;
    promises are slots of the [promises] array whose settlement is driven
    by events coming from the store driver and from the job queue.

    What the model takes for granted:
    - a document is the table of its own properties, and [doc[name]] of a
      name it does not have is [undefined]: the objects the code reads
      inherit from [Object.prototype] only, and the members they inherit
      from it are left out.  What inheriting from [Object.prototype] does
      to a write is modelled: [Object.assign] runs into the accessor
      [__proto__] when the document has an own property of that name (see
      [object_assign]).  The heap holds own properties; when the accessor
      gives the result another prototype, reading that result is outside
      the model;
    - [db], when defined, is a driver as the JSDoc of [update.js] types it:
      [createProperty] and [createEdge] return a promise, which the driver
      settles later, and they do not throw;
    - while a call is in flight, only the code of [update.js] writes to the
      heap. *)

From Stdlib Require Import ZArith.
From stdpp Require Import base option list strings pretty gmap fin_maps.

Open Scope string_scope.
Open Scope list_scope.
Set Warnings "-register-all,-clear-no-such-hyp".

(** ** Values, objects and the heap *)

Definition loc := positive.

(** JavaScript values.  [VObj] is a value-like (never written) object such
    as a store response; objects that are written to are heap cells. *)
Inductive value :=
  | VUndefined
  | VNull
  | VBool (b : bool)
  | VNum (n : Z)
  | VStr (s : string)
  | VObj (fields : gmap string value).

Global Instance value_inhabited : Inhabited value := populate VUndefined.

(** [v === undefined] *)
Definition is_undefined (v : value) : bool :=
  match v with VUndefined => true | _ => false end.

(** [o[k]] on a property table: a missing key reads as [undefined]. *)
Definition getp (o : gmap string value) (k : string) : value :=
  default VUndefined (o !! k).

(** What a thrown or rejected thing can be here: [new Error(msg)], the
    engine's [TypeError], or whatever reason the driver rejects with. *)
Inductive exn :=
  | Error (message : string)
  | TypeError (message : string)
  | Reason (v : value).

Inductive completion (A : Type) :=
  | Return (a : A)
  | Throw (e : exn).
Global Arguments Return {A} a.
Global Arguments Throw {A} e.

(** [v.k] on a value: reading a property of [undefined] or [null] throws;
    a primitive has no property of the names read in this file. *)
Definition member (v : value) (k : string) : completion value :=
  match v with
  | VUndefined => Throw (TypeError ("Cannot read properties of undefined (reading '" +:+ k +:+ "')"))
  | VNull => Throw (TypeError ("Cannot read properties of null (reading '" +:+ k +:+ "')"))
  | VObj fields => Return (getp fields k)
  | _ => Return VUndefined
  end.

(** String conversion, as a template literal does it. *)
Definition to_string (v : value) : string :=
  match v with
  | VUndefined => "undefined"
  | VNull => "null"
  | VBool true => "true"
  | VBool false => "false"
  | VNum n => pretty n
  | VStr s => s
  | VObj _ => "[object Object]"
  end.

(** ** Store calls *)

Inductive call :=
  | CreateProperty (tenant type node data maxGSIK : value)
  | CreateEdge (tenant type node target maxGSIK : value).

(** ** The world and the monad of synchronous code *)

Record world := World {
  heap : gmap loc (gmap string value);
  calls : list call  (* store calls issued so far, oldest first *)
}.

Definition M (A : Type) : Type := world → world * completion A.

Global Instance M_ret : MRet M := λ A a w, (w, Return a).
Global Instance M_bind : MBind M := λ A B k m w,
  match m w with
  | (w', Return a) => k a w'
  | (w', Throw e) => (w', Throw e)
  end.
Definition throw {A} (e : exn) : M A := λ w, (w, Throw e).

(** The property table behind a reference. *)
Definition deref (h : gmap loc (gmap string value)) (l : loc) : gmap string value :=
  default ∅ (h !! l).

Definition load (l : loc) : M (gmap string value) :=
  λ w, (w, Return (deref (heap w) l)).

Definition alloc (o : gmap string value) : M loc :=
  λ w, let l := fresh (dom (heap w)) in
       (World (<[l := o]> (heap w)) (calls w), Return l).

(** [l[k] = v] *)
Definition store (l : loc) (k : string) (v : value) : M unit :=
  λ w, (World (<[l := <[k := v]> (deref (heap w) l)]> (heap w)) (calls w),
        Return tt).

Definition issue (c : call) : M unit :=
  λ w, (World (heap w) (calls w ++ [c]), Return tt).

Fixpoint mapM {A B} (f : A → M B) (l : list A) : M (list B) :=
  match l with
  | [] => mret []
  | a :: l => b ← f a; bs ← mapM f l; mret (b :: bs)
  end.

Fixpoint foldlM {A B} (f : B → A → M B) (b : B) (l : list A) : M B :=
  match l with
  | [] => mret b
  | a :: l => b' ← f b a; foldlM f b' l
  end.

(** ** Promises

    An element of the [promises] array.  [on_fulfil] is the callback that
    [.then] attached to the driver's promise, [state] the state of the
    array element itself, [joined] whether [Promise.all] has already run
    its reaction for this element. *)

Inductive pstate (A : Type) :=
  | Pending
  | Fulfilled (v : A)
  | Rejected (e : exn).
Global Arguments Pending {A}.
Global Arguments Fulfilled {A} v.
Global Arguments Rejected {A} e.

Inductive handler :=
  | Direct                     (* the driver's promise itself *)
  | CaptureData (edge : loc).  (* response => (edge.data = response.Item.Data) *)

Record promise := Promise {
  on_fulfil : handler;
  state : pstate value;
  joined : bool
}.

(** [Promise.resolve()] *)
Definition resolved (v : value) : promise := Promise Direct (Fulfilled v) false.

(** [p.then(h)] on a promise of the driver that is still pending. *)
Definition then_ (p : promise) (h : handler) : promise :=
  Promise h (state p) (joined p).

(** The store driver.  Its two methods record the call and hand back a
    pending promise; the driver settles it later (event [Settle]). *)
Variant driver := DynamoDBGraphDriver.

Definition createProperty (db : driver) (tenant type node data maxGSIK : value)
  : M promise :=
  issue (CreateProperty tenant type node data maxGSIK);;
  mret (Promise Direct Pending false).

Definition createEdge (db : driver) (tenant type node target maxGSIK : value)
  : M promise :=
  issue (CreateEdge tenant type node target maxGSIK);;
  mret (Promise Direct Pending false).

(** ** [create(options)] and the function it returns *)

Record options := Options {
  db : option driver;                 (* [None]: undefined *)
  tenant : value;
  type : value;
  key : value;
  maxGSIK : value;
  properties : option (list string);  (* [None]: undefined, defaults to [] *)
  edges : option (list string)
}.

(** The variables of one call of the returned function that outlive its
    synchronous part, captured by the callbacks. *)
Record invocation := Invocation {
  doc : loc;
  node : value;
  edgeMap : list loc;
  promises : list promise;
  returned : pstate loc   (* the promise handed back to the caller *)
}.

(** [Object.assign(target, ...sources)] goes through the sources in
    order and copies the own properties of each with an ordinary
    assignment [target[k] = v].  Its targets in [update.js] are object
    literals: their properties are plain data and their prototype is
    [Object.prototype].  An assignment to such a target writes an own
    property of it, for every key but one.  [__proto__] is an accessor of
    [Object.prototype]: as long as the target has no own property of that
    name and still inherits the accessor, [target.__proto__ = v] runs its
    setter, which makes [v] the prototype of the target when [v] is an
    object or [null] and does nothing otherwise.  No own property is
    written then.  A document got from [JSON.parse] can have an own
    property of that name.

    A target is followed as its prototype, [None] for [Object.prototype],
    and the table of its own properties. *)

(** Whether an object with this prototype inherits the accessor: [null]
    ends the chain, and an own property [__proto__] of the new prototype,
    a plain object itself, hides the accessor. *)
Definition inherits_setter (proto : option value) : bool :=
  match proto with
  | None => true
  | Some (VObj fields) => bool_decide (fields !! "__proto__" = None)
  | Some _ => false
  end.

(** [target[k] = v] *)
Definition put (k : string) (v : value)
  (target : option value * gmap string value) : option value * gmap string value :=
  if bool_decide (k = "__proto__")
     && bool_decide (target.2 !! k = None)
     && inherits_setter target.1
  then match v with
       | VObj _ | VNull => (Some v, target.2)
       | _ => target
       end
  else (target.1, <[k := v]> target.2).

(** One source: each of its own properties is assigned.  They have
    different names, so the order in which they are taken does not show. *)
Definition copy (target : option value * gmap string value)
  (source : gmap string value) : option value * gmap string value :=
  map_fold put target source.

(** The own properties of the target after the call. *)
Definition object_assign (target : gmap string value)
  (sources : list (gmap string value)) : gmap string value :=
  (foldl copy (None, target) sources).2.

(** The same call with a heap object as target, a literal: the target is
    written in place and returned.  The heap holds own properties; the
    prototype the call may have given the target does not show in it. *)
Definition assign (target : loc) (sources : list (gmap string value)) : M loc :=
  λ w, (World (<[target := object_assign (deref (heap w) target) sources]> (heap w))
          (calls w),
        Return target).

(** Lines 80-127: the synchronous part of [doc => ...].  It runs to
    completion without anything else running in between, so the property
    table of [doc] is loaded once and every [doc[...]] reads it. *)
Definition update (db : driver) (tenant maxGSIK : value)
  (properties edges : list string) (doc : loc) : M invocation :=
  d ← load doc;
  let node := getp d "id" in
  if is_undefined node then throw (Error "Node is undefined") else
  let promises := [resolved VUndefined] in
  let propMap :=
    (λ property, (VStr property, getp d property)) <$>
      filter (λ property, ¬ is_undefined (getp d property)) properties in
  edgeMap ←
    mapM (λ edge, alloc {[ "type" := VStr edge; "target" := getp d edge ]})
      (filter (λ edge, ¬ is_undefined (getp d edge)) edges);
  promises ←
    (if bool_decide (0 < length propMap) then
       foldlM (λ promises '(type, data),
                 p ← createProperty db tenant type node data maxGSIK;
                 mret (promises ++ [p]))
         promises propMap
     else mret promises);
  promises ←
    (if bool_decide (0 < length edgeMap) then
       foldlM (λ promises edge,
                 e ← load edge;
                 let type := getp e "type" in
                 let target := getp e "target" in
                 p ← createEdge db tenant type node target maxGSIK;
                 mret (promises ++ [then_ p (CaptureData edge)]))
         promises edgeMap
     else mret promises);
  mret (Invocation doc node edgeMap promises Pending).

(** Lines 72-78. *)
Definition create (o : options) : completion (loc → M invocation) :=
  let properties := default [] (properties o) in
  let edges := default [] (edges o) in
  match db o with
  | None => Throw (Error "DB driver is undefined")
  | Some db =>
    if is_undefined (type o) then Throw (Error "Type is undefined")
    else if is_undefined (key o) then Throw (Error "Key is undefined")
    else if is_undefined (maxGSIK o) then Throw (Error "Max GSIK is undefined")
    else Return (update db (tenant o) (maxGSIK o) properties edges)
  end.

(** Lines 128-142: the callback of [Promise.all(promises).then].  The
    arguments of the outer [Object.assign] are evaluated in order: the
    literal [{id: node}], a fresh object, which is the target written to
    and returned; [doc]; the [reduce].  The accumulators of the [reduce]
    are temporaries nobody else sees and are kept as values. *)
Definition on_all_fulfilled (inv : invocation) : M loc :=
  target ← alloc {[ "id" := node inv ]};
  acc ← foldlM (λ acc edge,
                  e ← load edge;
                  mret (object_assign ∅
                          [acc; {[ "@" +:+ to_string (getp e "type") := getp e "data" ]}]))
         ∅ (edgeMap inv);
  d ← load (doc inv);
  assign target [d; acc].

(** ** The asynchronous part

    After the synchronous part returns, two kinds of things happen, in an
    order the code does not control: the driver settles one of the promises
    it handed out ([Settle]), which runs the [.then] callback of an edge
    write at once; and [Promise.all] takes notice of an element of
    [promises] that has settled ([Join]), which rejects the returned
    promise on a rejection and runs the final callback when the last
    element has been taken in. *)

Inductive outcome :=
  | Resolve (response : value)
  | Reject (reason : exn).

Inductive event :=
  | Settle (i : nat) (o : outcome)
  | Join (i : nat).

(** [response.Item.Data] *)
Definition item_data (response : value) : completion value :=
  match member response "Item" with
  | Return item => member item "Data"
  | Throw e => Throw e
  end.

Definition set_promise (i : nat) (p : promise) (inv : invocation) : invocation :=
  Invocation (doc inv) (node inv) (edgeMap inv) (<[i := p]> (promises inv))
    (returned inv).

Definition set_returned (r : pstate loc) (inv : invocation) : invocation :=
  Invocation (doc inv) (node inv) (edgeMap inv) (promises inv) r.

Definition is_pending {A} (s : pstate A) : bool :=
  match s with Pending => true | _ => false end.

Definition is_fulfilled {A} (s : pstate A) : bool :=
  match s with Fulfilled _ => true | _ => false end.

(** All elements fulfilled and taken in by [Promise.all]. *)
Definition all_joined (ps : list promise) : bool :=
  forallb (λ p, is_fulfilled (state p) && joined p) ps.

Definition settle (i : nat) (o : outcome) (w : world) (inv : invocation)
  : option (world * invocation) :=
  p ← promises inv !! i;
  if is_pending (state p) then
    match o with
    | Reject e =>
        Some (w, set_promise i (Promise (on_fulfil p) (Rejected e) (joined p)) inv)
    | Resolve response =>
        match on_fulfil p with
        | Direct =>
            Some (w, set_promise i
                       (Promise Direct (Fulfilled response) (joined p)) inv)
        | CaptureData edge =>
            match item_data response with
            | Throw e =>
                Some (w, set_promise i
                           (Promise (CaptureData edge) (Rejected e) (joined p)) inv)
            | Return data =>
                Some ((store edge "data" data w).1,
                      set_promise i
                        (Promise (CaptureData edge) (Fulfilled data) (joined p)) inv)
            end
        end
    end
  else None.

Definition join (i : nat) (w : world) (inv : invocation)
  : option (world * invocation) :=
  p ← promises inv !! i;
  if joined p then None else
  match state p with
  | Pending => None
  | Rejected e =>
      let inv' := set_promise i (Promise (on_fulfil p) (Rejected e) true) inv in
      Some (w, if is_pending (returned inv') then set_returned (Rejected e) inv'
               else inv')
  | Fulfilled v =>
      let inv' := set_promise i (Promise (on_fulfil p) (Fulfilled v) true) inv in
      if all_joined (promises inv') && is_pending (returned inv') then
        match on_all_fulfilled inv' w with
        | (w', Return result) => Some (w', set_returned (Fulfilled result) inv')
        | (w', Throw e) => Some (w', set_returned (Rejected e) inv')
        end
      else Some (w, inv')
  end.

Definition step (ev : event) (st : world * invocation)
  : option (world * invocation) :=
  match ev with
  | Settle i o => settle i o st.1 st.2
  | Join i => join i st.1 st.2
  end.

Fixpoint run (evs : list event) (st : world * invocation)
  : option (world * invocation) :=
  match evs with
  | [] => Some st
  | ev :: evs => st' ← step ev st; run evs st'
  end.

(** ** Examples from the header of [update.js] *)

Definition book : options :=
  Options (Some DynamoDBGraphDriver) (VStr "cuid-tenant") (VStr "Book")
    (VStr "Name") (VNum 4) (Some ["Genre"]) (Some ["Author"; "Likes[]"]).

Definition elantris : gmap string value :=
  {[ "id" := VStr "cuix"; "Name" := VStr "Elantris";
     "Genre" := VStr "Fantasy"; "Author" := VStr "cuiv" ]}.

Definition sanderson : value :=
  VObj {[ "Item" := VObj {[ "Data" := VStr "Brandon Sanderson" ]} ]}.

(** * Vocabulary of the statements *)

(** The recognized names that are present ([!== undefined]) in a document. *)
Definition present (d : gmap string value) (names : list string) : list string :=
  filter (λ name, ¬ is_undefined (getp d name)) names.

Definition property_call (tenant node maxGSIK : value) (d : gmap string value)
  (p : string) : call :=
  CreateProperty tenant (VStr p) node (getp d p) maxGSIK.

Definition edge_call (tenant node maxGSIK : value) (d : gmap string value)
  (e : string) : call :=
  CreateEdge tenant (VStr e) node (getp d e) maxGSIK.

(** The object [{type: edge, target: doc[edge]}], with [data] once captured. *)
Definition edge_object (d : gmap string value) (e : string) : gmap string value :=
  {[ "type" := VStr e; "target" := getp d e ]}.

(** The promise of a property write and of an edge write as the synchronous
    part leaves them. *)
Definition property_promise : promise := Promise Direct Pending false.
Definition edge_promise (l : loc) : promise := Promise (CaptureData l) Pending false.

(** The object the [reduce] builds: one [@<type>] entry per edge, later
    edges overwriting earlier ones of the same type. *)
Definition edge_entries (acc : gmap string value) (pairs : list (string * value))
  : gmap string value :=
  foldl (λ acc ev, <["@" +:+ ev.1 := ev.2]> acc) acc pairs.

(** What the returned promise resolves to. *)
Definition result_object (nd : value) (d : gmap string value)
  (pairs : list (string * value)) : gmap string value :=
  object_assign {[ "id" := nd ]} [d; edge_entries ∅ pairs].

(** An element of [edgeMap] once its [data] has been captured. *)
Definition captured_edge (d : gmap string value) (ev : string * value)
  : gmap string value :=
  <["data" := ev.2]> (edge_object d ev.1).

(** What the [.then] callback of a promise makes of the driver's response. *)
Definition delivered (h : handler) (response : value) : completion value :=
  match h with
  | Direct => Return response
  | CaptureData _ => item_data response
  end.

(** The state of an element of [promises] comes from an event: a settled
    element other than [Promise.resolve()] was settled by the driver. *)
Definition settled_by (evs : list event) (i : nat) (p : promise) : Prop :=
  match state p with
  | Pending => True
  | Fulfilled v =>
      i = 0 ∨ ∃ r, Settle i (Resolve r) ∈ evs ∧ delivered (on_fulfil p) r = Return v
  | Rejected e =>
      Settle i (Reject e) ∈ evs
      ∨ ∃ r, Settle i (Resolve r) ∈ evs ∧ delivered (on_fulfil p) r = Throw e
  end.

Definition fulfilled_value (p : promise) : value :=
  match state p with Fulfilled v => v | _ => VUndefined end.

Section Invariant.
(** The document, its reference and node id; the number of property
    writes; the edge names written and the elements of [edgeMap]; the
    heap before the call and the store calls after its synchronous part. *)
Variables (d : gmap string value) (docl : loc) (nd : value).
Variables (np : nat) (es : list string) (ls : list loc).
Variables (h0 : gmap loc (gmap string value)) (cs : list call).

Definition edge_cell (e : string) (s : pstate value) : gmap string value :=
  match s with
  | Fulfilled v => captured_edge d (e, v)
  | _ => edge_object d e
  end.

Definition slot_ok (evs : list event) (h : gmap loc (gmap string value))
  (i : nat) (p : promise) : Prop :=
  (joined p = true → is_pending (state p) = false)
  ∧ settled_by evs i p
  ∧ (i = 0 → on_fulfil p = Direct ∧ state p = Fulfilled VUndefined)
  ∧ (i < S np → on_fulfil p = Direct)
  ∧ (∀ k, i = S (np + k) →
       ∃ l e, ls !! k = Some l ∧ es !! k = Some e
              ∧ on_fulfil p = CaptureData l
              ∧ h !! l = Some (edge_cell e (state p))).

(** The edge names with the data their promises were fulfilled with. *)
Definition captured (ps : list promise) : list (string * value) :=
  zip es (fulfilled_value <$> drop (S np) ps).

Record good (evs : list event) (st : world * invocation) : Prop := Good {
  good_calls : calls st.1 = cs;
  good_doc : doc st.2 = docl;
  good_node : node st.2 = nd;
  good_edgeMap : edgeMap st.2 = ls;
  good_frame : ∀ l o, h0 !! l = Some o → heap st.1 !! l = Some o;
  good_length : length (promises st.2) = S (np + length ls);
  good_slots : ∀ i p, promises st.2 !! i = Some p → slot_ok evs (heap st.1) i p;
  good_returned :
    match returned st.2 with
    | Pending =>
        all_joined (promises st.2) = false
        ∧ ∀ i p, promises st.2 !! i = Some p → joined p = true →
                 is_fulfilled (state p) = true
    | Rejected e =>
        ∃ i p, promises st.2 !! i = Some p ∧ state p = Rejected e
               ∧ joined p = true
    | Fulfilled l =>
        all_joined (promises st.2) = true
        ∧ h0 !! l = None ∧ (l ∉ ls)
        ∧ heap st.1 !! l = Some (result_object nd d (captured (promises st.2)))
    end
}.

End Invariant.

Definition is_createProperty (c : call) : bool :=
  match c with CreateProperty _ _ _ _ _ => true | CreateEdge _ _ _ _ _ => false end.

Definition is_createEdge (c : call) : bool :=
  match c with CreateProperty _ _ _ _ _ => false | CreateEdge _ _ _ _ _ => true end.

Definition call_type (c : call) : value :=
  match c with CreateProperty _ t _ _ _ | CreateEdge _ t _ _ _ => t end.
Definition call_node (c : call) : value :=
  match c with CreateProperty _ _ n _ _ | CreateEdge _ _ n _ _ => n end.

(** The call is for the name [name]. *)
Definition has_type_name (name : string) (t : value) : bool :=
  match t with VStr s => bool_decide (s = name) | _ => false end.
Definition has_type (name : string) (c : call) : bool :=
  has_type_name name (call_type c).

Definition property_calls (cs : list call) : list call :=
  filter (λ c, is_createProperty c) cs.

Definition edge_calls (cs : list call) : list call :=
  filter (λ c, is_createEdge c) cs.

(** How many times a name is listed. *)
Definition occurrences (name : string) (names : list string) : nat :=
  length (filter (λ x, x = name) names).

(** The store calls of an invocation, in the order they are issued. *)
Definition issued (o : options) (d : gmap string value) : list call :=
  (property_call (tenant o) (getp d "id") (maxGSIK o) d
     <$> present d (default [] (properties o)))
  ++ (edge_call (tenant o) (getp d "id") (maxGSIK o) d
        <$> present d (default [] (edges o))).

(** What the driver's settlement makes of an element of [promises]. *)
Definition settlement (h : handler) (o : outcome) : pstate value :=
  match o with
  | Reject e => Rejected e
  | Resolve response =>
      match delivered h response with
      | Return v => Fulfilled v
      | Throw e => Rejected e
      end
  end.

(** The store calls an invocation added to the trace. *)
Definition issued_by (w w0 : world) : list call :=
  drop (length (calls w)) (calls w0).

(** How many of the calls are for the name [name]. *)
Definition count_calls (name : string) (cs : list call) : nat :=
  length (filter (λ c, has_type name c) cs).

(** The shelf: a heap that holds the document of the example at 5. *)
Definition shelf : world := World {[ 5%positive := elantris ]} [].

Definition book_update : loc → M invocation :=
  update DynamoDBGraphDriver (VStr "cuid-tenant") (VNum 4)
    ["Genre"] ["Author"; "Likes[]"].

(** The state a call is in when its synchronous part has returned. *)
Definition started (f : loc → M invocation) (docl : loc) (w : world)
  : option (world * invocation) :=
  match f docl w with
  | (w0, Return inv0) => Some (w0, inv0)
  | (_, Throw _) => None
  end.

(** The example: the property write and the edge write are fulfilled, then
    [Promise.all] takes the three elements in. *)
Definition book_run : list event :=
  [Settle 1 (Resolve VNull); Settle 2 (Resolve sanderson);
   Join 0; Join 1; Join 2].

(** A document that has the configured key field [Name] but no [id]. *)
Definition draft : gmap string value :=
  {[ "Name" := VStr "Elantris"; "Genre" := VStr "Fantasy" ]}.

Definition desk : world := World {[ 5%positive := draft ]} [].

Definition throttled : exn := Reason (VStr "throttled").
Definition timed_out : exn := Reason (VStr "timed out").

(** A response that has no [Item]: the response, or its [Item], is
    undefined or null.  (A primitive has no property [Item].) *)
Definition without_item (response : value) : bool :=
  match response with
  | VObj fields =>
      match getp fields "Item" with
      | VUndefined | VNull => true
      | _ => false
      end
  | _ => true
  end.

(** No rejected element of [promises] has been taken in by [Promise.all]. *)
Definition none_rejected_yet (ps : list promise) : bool :=
  forallb (λ q, implb (joined q) (is_fulfilled (state q))) ps.

(** A document as [JSON.parse] makes it of a text that has a key
    [__proto__]: an own property of that name. *)
Definition parsed : gmap string value :=
  {[ "id" := VStr "cuix"; "Name" := VStr "Elantris";
     "__proto__" := VStr "Book" ]}.

Definition inbox : world := World {[ 5%positive := parsed ]} [].

(** A model that lists the edge [Author] twice, and a run in which the
    second [Author] write is answered before the first. *)
Definition reprint : options :=
  Options (Some DynamoDBGraphDriver) (VStr "cuid-tenant") (VStr "Book")
    (VStr "Name") (VNum 4) (Some ["Genre"]) (Some ["Author"; "Author"]).

Definition reprint_update : loc → M invocation :=
  update DynamoDBGraphDriver (VStr "cuid-tenant") (VNum 4)
    ["Genre"] ["Author"; "Author"].

Definition jordan : value :=
  VObj {[ "Item" := VObj {[ "Data" := VStr "Robert Jordan" ]} ]}.

Definition reprint_run : list event :=
  [Settle 3 (Resolve sanderson); Settle 2 (Resolve jordan);
   Settle 1 (Resolve VNull); Join 0; Join 1; Join 2; Join 3].

(** * Proofs *)

(** ** The synchronous part in closed form *)

Lemma edge_object_type d e : getp (edge_object d e) "type" = VStr e.
Proof. unfold getp, edge_object. by rewrite lookup_insert_eq. Qed.

Lemma edge_object_target d e : getp (edge_object d e) "target" = getp d e.
Proof.
  unfold getp at 1, edge_object.
  rewrite lookup_insert_ne by done. by rewrite lookup_singleton_eq.
Qed.

Lemma deref_lookup h l o : h !! l = Some o → deref h l = o.
Proof. unfold deref. by intros ->. Qed.

Lemma bind_run {A B} (m : M A) (k : A → M B) w :
  (m ≫= k) w = match m w with
               | (w', Return a) => k a w'
               | (w', Throw e) => (w', Throw e)
               end.
Proof. reflexivity. Qed.

Lemma fresh_lookup (h : gmap loc (gmap string value)) :
  h !! fresh (dom h) = None.
Proof. apply not_elem_of_dom, is_fresh. Qed.

Lemma mapM_alloc {A} (f : A → gmap string value) (xs : list A) (w : world) :
  ∃ ls h',
    mapM (λ x, alloc (f x)) xs w = (World h' (calls w), Return ls)
    ∧ Forall2 (λ l x, h' !! l = Some (f x)) ls xs
    ∧ NoDup ls
    ∧ (∀ l, l ∈ ls → heap w !! l = None)
    ∧ (∀ l o, heap w !! l = Some o → h' !! l = Some o)
    ∧ (∀ l, h' !! l = None → heap w !! l = None).
Proof.
  revert w. induction xs as [|x xs IH]; intros w.
  - exists [], (heap w). destruct w; simpl.
    split_and!;
      [reflexivity | constructor | constructor
      | intros l Hl; inversion Hl | auto | auto].
  - set (l0 := fresh (dom (heap w))).
    set (w1 := World (<[l0 := f x]> (heap w)) (calls w)).
    destruct (IH w1) as (ls & h' & Hrun & Hall & Hnd & Hfresh & Hpres & Hnone).
    exists (l0 :: ls), h'.
    assert (Hl0 : heap w !! l0 = None) by apply fresh_lookup.
    split_and!.
    + cbn [mapM]. rewrite bind_run. unfold alloc at 1. fold l0. fold w1.
      rewrite bind_run, Hrun. reflexivity.
    + constructor; [|exact Hall].
      apply Hpres. simpl. apply lookup_insert_eq.
    + constructor; [|exact Hnd].
      intros Hin. apply Hfresh in Hin. simpl in Hin.
      rewrite lookup_insert_eq in Hin. discriminate.
    + intros l Hin. apply elem_of_cons in Hin as [->|Hin]; [exact Hl0|].
      apply Hfresh in Hin. simpl in Hin.
      destruct (decide (l0 = l)) as [<-|Hne]; [exact Hl0|].
      by rewrite lookup_insert_ne in Hin.
    + intros l o Hlo. apply Hpres. simpl.
      rewrite lookup_insert_ne; [exact Hlo|]. congruence.
    + intros l Hl. apply Hnone in Hl. simpl in Hl.
      destruct (decide (l0 = l)) as [<-|Hne]; [exact Hl0|].
      by rewrite lookup_insert_ne in Hl.
Qed.

(** [if (l.length > 0) l.forEach(...)] is [l.forEach(...)]. *)
Lemma guarded_foldlM {A B} (f : B → A → M B) (b : B) (l : list A) :
  (if bool_decide (0 < length l) then foldlM f b l else mret b) = foldlM f b l.
Proof. destruct l; [reflexivity|]. rewrite bool_decide_eq_true_2; simpl; [done|lia]. Qed.

Lemma foldlM_createProperty db tenant node maxGSIK
  (pm : list (value * value)) (ps : list promise) (w : world) :
  foldlM (λ promises '(type, data),
            p ← createProperty db tenant type node data maxGSIK;
            mret (promises ++ [p])) ps pm w
  = (World (heap w)
       (calls w ++ ((λ '(type, data),
                       CreateProperty tenant type node data maxGSIK) <$> pm)),
     Return (ps ++ ((λ _, Promise Direct Pending false) <$> pm))).
Proof.
  revert ps w. induction pm as [|[ty da] pm IH]; intros ps w.
  - destruct w; simpl. by rewrite !app_nil_r.
  - cbn [foldlM]. rewrite bind_run. unfold createProperty at 1.
    rewrite !bind_run. unfold issue at 1. cbn [mret M_ret].
    rewrite IH. cbn [heap calls fmap list_fmap].
    by rewrite <- !app_assoc.
Qed.

Lemma foldlM_createEdge db tenant node maxGSIK d
  (ls : list loc) (es : list string) (ps : list promise) (w : world) :
  Forall2 (λ l e, heap w !! l = Some (edge_object d e)) ls es →
  foldlM (λ promises edge,
            e ← load edge;
            let type := getp e "type" in
            let target := getp e "target" in
            p ← createEdge db tenant type node target maxGSIK;
            mret (promises ++ [then_ p (CaptureData edge)])) ps ls w
  = (World (heap w) (calls w ++ (edge_call tenant node maxGSIK d <$> es)),
     Return (ps ++ ((λ l, Promise (CaptureData l) Pending false) <$> ls))).
Proof.
  revert es ps w. induction ls as [|l ls IH]; intros es ps w Hall.
  - apply Forall2_nil_inv_l in Hall as ->. destruct w; simpl.
    by rewrite !app_nil_r.
  - apply Forall2_cons_inv_l in Hall as (e & es' & Hl & Hall & ->).
    cbn [foldlM]. rewrite 2!bind_run. unfold load at 1. cbn beta iota.
    rewrite !(deref_lookup _ _ _ Hl).
    cbn zeta. rewrite bind_run. unfold createEdge at 1.
    rewrite !bind_run. unfold issue at 1. cbn [mret M_ret].
    rewrite edge_object_type, edge_object_target.
    rewrite (IH es') by exact Hall.
    cbn [heap calls fmap list_fmap].
    by rewrite <- !app_assoc.
Qed.

Section Synchronous.
Variables (db0 : driver) (tenant0 maxGSIK0 : value) (P E : list string).
Variables (docl : loc) (w : world).

(** A document without [id]: the call throws and leaves the world as it
    found it. *)
Lemma update_throws :
  is_undefined (getp (deref (heap w) docl) "id") = true →
  update db0 tenant0 maxGSIK0 P E docl w = (w, Throw (Error "Node is undefined")).
Proof.
  intros Hid. unfold update. rewrite bind_run. unfold load at 1.
  cbn beta iota zeta. rewrite Hid. reflexivity.
Qed.

(** A document with [id]: every write is issued, every promise pending. *)
Lemma update_started :
  is_undefined (getp (deref (heap w) docl) "id") = false →
  let d := deref (heap w) docl in
  let nd := getp d "id" in
  ∃ ls h',
    update db0 tenant0 maxGSIK0 P E docl w =
      (World h'
         (calls w ++ (property_call tenant0 nd maxGSIK0 d <$> present d P)
                  ++ (edge_call tenant0 nd maxGSIK0 d <$> present d E)),
       Return (Invocation docl nd ls
                 (resolved VUndefined
                    :: ((λ _, property_promise) <$> present d P)
                    ++ (edge_promise <$> ls))
                 Pending))
    ∧ Forall2 (λ l e, h' !! l = Some (edge_object d e)) ls (present d E)
    ∧ NoDup ls
    ∧ (∀ l, l ∈ ls → heap w !! l = None)
    ∧ (∀ l o, heap w !! l = Some o → h' !! l = Some o)
    ∧ (∀ l, h' !! l = None → heap w !! l = None).
Proof.
  intros Hid d nd.
  destruct (mapM_alloc (edge_object d) (present d E) w)
    as (ls & h' & Hrun & Hall & Hnd & Hfresh & Hpres & Hnone).
  exists ls, h'. split; [|done].
  unfold update. rewrite bind_run. unfold load at 1.
  cbn beta iota zeta. rewrite Hid. fold d. fold nd.
  rewrite bind_run. unfold edge_object in Hrun. unfold present in Hrun.
  rewrite Hrun. rewrite bind_run.
  rewrite guarded_foldlM, foldlM_createProperty.
  rewrite bind_run, guarded_foldlM.
  rewrite (foldlM_createEdge _ _ _ _ d _ (present d E)) by exact Hall.
  unfold mret, M_ret, present. cbn [heap calls].
  rewrite <- !list_fmap_compose, <- (app_assoc (calls w)). reflexivity.
Qed.
End Synchronous.

(** ** The final callback in closed form *)

Lemma captured_edge_type d ev : getp (captured_edge d ev) "type" = VStr ev.1.
Proof.
  unfold getp, captured_edge, edge_object.
  rewrite lookup_insert_ne by done. by rewrite lookup_insert_eq.
Qed.

Lemma captured_edge_data d ev : getp (captured_edge d ev) "data" = ev.2.
Proof. unfold getp, captured_edge. by rewrite lookup_insert_eq. Qed.

(** *** [Object.assign] in closed form *)

Lemma put_other k v target :
  k ≠ "__proto__" → put k v target = (target.1, <[k := v]> target.2).
Proof. intros Hk. unfold put. by rewrite (bool_decide_eq_false_2 _ Hk). Qed.

(** The own properties of a source have different names, and assignments
    to different names can be swapped: the order in which a source is gone
    through does not show. *)
Lemma put_comm k1 v1 k2 v2 target :
  k1 ≠ k2 → put k1 v1 (put k2 v2 target) = put k2 v2 (put k1 v1 target).
Proof.
  intros Hne. destruct target as [proto own].
  destruct (decide (k1 = "__proto__")) as [->|H1];
    destruct (decide (k2 = "__proto__")) as [->|H2]; [done| | |].
  - rewrite (put_other k2) by done. unfold put at 1 3. cbn [fst snd].
    rewrite lookup_insert_ne by done.
    destruct (_ && _ && _); [|by rewrite put_other, insert_insert_ne].
    destruct v1; rewrite put_other; done.
  - rewrite (put_other k1), (put_other k1) by done. unfold put. cbn [fst snd].
    rewrite lookup_insert_ne by done.
    destruct (_ && _ && _); [|by rewrite insert_insert_ne].
    destruct v2; done.
  - rewrite !put_other by done. cbn [fst snd]. by rewrite insert_insert_ne.
Qed.

(** The own properties of a source other than [__proto__] become own
    properties of the target; [__proto__] is left to [put]. *)
Lemma copy_closed target source :
  copy target source
  = match source !! "__proto__" with
    | Some v => put "__proto__" v (target.1, delete "__proto__" source ∪ target.2)
    | None => (target.1, source ∪ target.2)
    end.
Proof.
  unfold copy. induction source as [|k v source Hk IH] using map_ind.
  - rewrite map_fold_empty, lookup_empty, (left_id_L ∅ (∪)). by destruct target.
  - rewrite map_fold_insert_L; [|intros; by apply put_comm|done].
    rewrite IH. destruct (decide (k = "__proto__")) as [->|Hne].
    + rewrite Hk, lookup_insert_eq, delete_insert_eq. rewrite delete_id by done.
      done.
    + rewrite lookup_insert_ne by done.
      destruct (source !! "__proto__") as [v'|] eqn:Hp.
      * rewrite put_comm by done. rewrite (put_other k) by done. cbn [fst snd].
        rewrite delete_insert_ne by done. by rewrite insert_union_l.
      * rewrite put_other by done. cbn [fst snd]. by rewrite insert_union_l.
Qed.

Lemma copy_plain target source :
  source !! "__proto__" = None → copy target source = (target.1, source ∪ target.2).
Proof. intros Hp. by rewrite copy_closed, Hp. Qed.

(** A literal without [__proto__] as target: the source's own [__proto__]
    is the one property that is not copied. *)
Lemma copy_literal (target source : gmap string value) :
  target !! "__proto__" = None →
  (copy (None, target) source).2 = delete "__proto__" source ∪ target.
Proof.
  intros Ht. rewrite copy_closed. cbn [fst snd].
  destruct (source !! "__proto__") as [v|] eqn:Hp.
  - unfold put. cbn [fst snd].
    rewrite lookup_union_r by apply lookup_delete_eq. rewrite Ht.
    cbn. by destruct v.
  - by rewrite delete_id.
Qed.

Lemma at_key_not_proto e : "@" +:+ e ≠ "__proto__".
Proof. cbn. discriminate. Qed.

Lemma edge_entries_proto acc (pairs : list (string * value)) :
  acc !! "__proto__" = None → edge_entries acc pairs !! "__proto__" = None.
Proof.
  revert acc. induction pairs as [|[e v] pairs IH]; intros acc Hacc; [done|].
  cbn [edge_entries foldl fst snd]. apply IH.
  rewrite lookup_insert_ne; [done|apply at_key_not_proto].
Qed.

Lemma object_assign_entry (acc : gmap string value) k v :
  acc !! "__proto__" = None → k ≠ "__proto__" →
  object_assign ∅ [acc; {[ k := v ]}] = <[k := v]> acc.
Proof.
  intros Hacc Hk. unfold object_assign. cbn [foldl].
  rewrite (copy_plain _ acc) by done. cbn [fst snd].
  rewrite copy_plain by (by apply lookup_singleton_ne). cbn [fst snd].
  rewrite (right_id_L ∅ (∪) acc). symmetry. apply insert_union_singleton_l.
Qed.

Lemma reduce_run d (ls : list loc) (pairs : list (string * value))
  (acc : gmap string value) (w : world) :
  acc !! "__proto__" = None →
  Forall2 (λ l ev, heap w !! l = Some (captured_edge d ev)) ls pairs →
  foldlM (λ acc edge,
            e ← load edge;
            mret (object_assign ∅
                    [acc; {[ "@" +:+ to_string (getp e "type") := getp e "data" ]}]))
    acc ls w
  = (w, Return (edge_entries acc pairs)).
Proof.
  revert pairs acc. induction ls as [|l ls IH]; intros pairs acc Hacc Hall.
  - apply Forall2_nil_inv_l in Hall as ->. reflexivity.
  - apply Forall2_cons_inv_l in Hall as (ev & pairs' & Hl & Hall & ->).
    cbn [foldlM]. rewrite 2!bind_run. unfold load at 1. cbn beta iota.
    rewrite !(deref_lookup _ _ _ Hl).
    rewrite captured_edge_type, captured_edge_data.
    rewrite object_assign_entry by (done || apply at_key_not_proto).
    cbn [to_string mret M_ret]. rewrite (IH pairs'); [done| |done].
    rewrite lookup_insert_ne; [done|apply at_key_not_proto].
Qed.

(** The result: the entries of the edges over the document over
    [{id: node}], less the document's own [__proto__]. *)
Lemma result_object_eq nd d pairs :
  result_object nd d pairs
  = edge_entries ∅ pairs ∪ (delete "__proto__" d ∪ {[ "id" := nd ]}).
Proof.
  unfold result_object, object_assign. cbn [foldl].
  rewrite (copy_plain _ (edge_entries ∅ pairs)) by (by apply edge_entries_proto).
  cbn [fst snd]. by rewrite copy_literal.
Qed.

Lemma on_all_fulfilled_run d docl nd (ls : list loc)
  (pairs : list (string * value)) ps r (w : world) :
  heap w !! docl = Some d →
  Forall2 (λ l ev, heap w !! l = Some (captured_edge d ev)) ls pairs →
  on_all_fulfilled (Invocation docl nd ls ps r) w
  = (World (<[fresh (dom (heap w)) := result_object nd d pairs]> (heap w)) (calls w),
     Return (fresh (dom (heap w)))).
Proof.
  intros Hdoc Hall. unfold on_all_fulfilled. cbn [edgeMap node doc].
  rewrite bind_run. unfold alloc at 1. cbn beta iota zeta.
  set (lr := fresh (dom (heap w))).
  assert (Hlr : heap w !! lr = None) by apply fresh_lookup.
  assert (Hne : lr ≠ docl) by (intros ->; congruence).
  rewrite bind_run, (reduce_run d ls pairs); [|done|].
  2: { cbn [heap]. eapply Forall2_impl; [exact Hall|].
       intros l ev Hl. cbn beta. rewrite lookup_insert_ne; [done|].
       intros <-. congruence. }
  rewrite bind_run. unfold load at 1, assign. cbn [heap calls].
  unfold deref. rewrite (lookup_insert_ne _ lr docl) by exact Hne.
  rewrite Hdoc, lookup_insert_eq, insert_insert_eq. reflexivity.
Qed.

(** ** What holds in every state a call can reach *)

Lemma all_joined_lookup ps i p :
  all_joined ps = true → ps !! i = Some p →
  is_fulfilled (state p) = true ∧ joined p = true.
Proof.
  unfold all_joined. intros Hall Hp.
  apply Is_true_true, forallb_True in Hall.
  rewrite Forall_lookup in Hall. specialize (Hall i p Hp).
  apply andb_True in Hall as [H1 H2]. split; by apply Is_true_true.
Qed.

Lemma all_joined_false ps i p :
  ps !! i = Some p → is_fulfilled (state p) && joined p = false →
  all_joined ps = false.
Proof.
  intros Hp Hf. destruct (all_joined ps) eqn:Hall; [|done].
  destruct (all_joined_lookup _ _ _ Hall Hp) as [H1 H2].
  by rewrite H1, H2 in Hf.
Qed.

Lemma settled_by_mono evs ev i p :
  settled_by evs i p → settled_by (evs ++ [ev]) i p.
Proof.
  unfold settled_by. destruct (state p); [done| |].
  - intros [->|(r & Hin & Hd)]; [by left|right].
    exists r. split; [|done]. apply elem_of_app. by left.
  - intros [Hin|(r & Hin & Hd)]; [left|right].
    + apply elem_of_app. by left.
    + exists r. split; [|done]. apply elem_of_app. by left.
Qed.

Section Asynchronous.
(** The document, its reference and node id; the number of property
    writes; the edge names written and the elements of [edgeMap]; the
    heap before the call and the store calls after its synchronous part. *)
Variables (d : gmap string value) (docl : loc) (nd : value).
Variables (np : nat) (es : list string) (ls : list loc).
Variables (h0 : gmap loc (gmap string value)) (cs : list call).
Hypothesis Hdoc0 : h0 !! docl = Some d.
Hypothesis Hnodup : NoDup ls.
Hypothesis Hfresh : ∀ l, l ∈ ls → h0 !! l = None.
Hypothesis Hlen : length ls = length es.

Local Abbreviation edge_cell := (edge_cell d).
Local Abbreviation slot_ok := (slot_ok d np es ls).
Local Abbreviation captured := (captured np es).
Local Abbreviation good := (good d docl nd np es ls h0 cs).
Local Abbreviation good_calls := (good_calls d docl nd np es ls h0 cs).
Local Abbreviation good_doc := (good_doc d docl nd np es ls h0 cs).
Local Abbreviation good_node := (good_node d docl nd np es ls h0 cs).
Local Abbreviation good_edgeMap := (good_edgeMap d docl nd np es ls h0 cs).
Local Abbreviation good_frame := (good_frame d docl nd np es ls h0 cs).
Local Abbreviation good_length := (good_length d docl nd np es ls h0 cs).
Local Abbreviation good_slots := (good_slots d docl nd np es ls h0 cs).
Local Abbreviation good_returned := (good_returned d docl nd np es ls h0 cs).

Lemma slot_ok_mono evs ev h i p :
  slot_ok evs h i p → slot_ok (evs ++ [ev]) h i p.
Proof.
  intros (H1 & H2 & H3). split_and!; auto using settled_by_mono; apply H3.
Qed.

(** Every element of [edgeMap] is a cell of the heap, distinct from every
    object that was there before the call. *)
Lemma good_edge_cell evs st k l :
  good evs st → ls !! k = Some l → is_Some (heap st.1 !! l).
Proof.
  intros G Hl.
  assert (Hk : k < length ls) by (eapply lookup_lt_Some; eauto).
  destruct (lookup_lt_is_Some_2 (promises st.2) (S (np + k))) as [p Hp].
  { rewrite (good_length _ _ G). lia. }
  destruct (good_slots _ _ G _ _ Hp) as (_ & _ & _ & _ & Hedge).
  destruct (Hedge k eq_refl) as (l' & e & Hl' & _ & _ & Hcell).
  rewrite Hl in Hl'. injection Hl' as <-. eauto.
Qed.

Lemma pending_not_joined evs h i p :
  slot_ok evs h i p → state p = Pending → joined p = false.
Proof.
  intros (H1 & _) Hs. destruct (joined p); [|done].
  specialize (H1 eq_refl). by rewrite Hs in H1.
Qed.

(** The driver settles a pending element: its state changes, and at most
    the cell of its own edge object. *)
Lemma good_settle evs ev w inv i p s' h' :
  good evs (w, inv) →
  promises inv !! i = Some p → state p = Pending → is_pending s' = false →
  settled_by (evs ++ [ev]) i (Promise (on_fulfil p) s' (joined p)) →
  (∀ l o, heap w !! l = Some o →
          (∀ k, i = S (np + k) → ls !! k ≠ Some l) → h' !! l = Some o) →
  (∀ k l e, i = S (np + k) → ls !! k = Some l → es !! k = Some e →
            h' !! l = Some (edge_cell e s')) →
  good (evs ++ [ev])
    (World h' (calls w),
     set_promise i (Promise (on_fulfil p) s' (joined p)) inv).
Proof.
  intros G Hp Hs Hs' Hby Hother Hcell.
  pose proof (good_slots _ _ G _ _ Hp) as Hok. cbn [fst snd] in Hok.
  pose proof (pending_not_joined _ _ _ _ Hok Hs) as Hj.
  assert (Hlt : i < length (promises inv)) by (eapply lookup_lt_Some; eauto).
  destruct G as [Gc Gd Gn Ge Gf Gl Gs Gr]. cbn [fst snd] in *.
  constructor; cbn [fst snd set_promise calls heap doc node edgeMap promises returned];
    try done.
  - intros l o Hl. apply Hother; [by apply Gf|].
    intros k _ Hk. rewrite Hfresh in Hl; [done|].
    eapply list_elem_of_lookup_2; eauto.
  - by rewrite length_insert.
  - intros j q Hq.
    apply list_lookup_insert_Some in Hq as [(<- & <- & _)|(Hne & Hq)].
    + destruct Hok as (_ & _ & H0 & Hd & He).
      split_and!; cbn [joined state on_fulfil].
      * by rewrite Hj.
      * exact Hby.
      * intros ->. destruct (H0 eq_refl) as [_ Hf]. by rewrite Hs in Hf.
      * exact Hd.
      * intros k Hk. destruct (He k Hk) as (l & e & Hl & He' & Hh & _).
        exists l, e. split_and!; try done. by eapply Hcell.
    + destruct (Gs _ _ Hq) as (H1 & H2 & H0 & Hd & He).
      split_and!; [exact H1|by apply settled_by_mono|exact H0|exact Hd|].
      intros k Hk. destruct (He k Hk) as (l & e & Hl & He' & Hh & Hc).
      exists l, e. split_and!; try done. apply Hother; [done|].
      intros k' Hk' Hl'. assert (k = k') by (eapply NoDup_lookup; eauto). lia.
  - destruct (returned inv) as [|lr|e].
    + destruct Gr as [_ Gr]. split.
      * apply (all_joined_false _ i (Promise (on_fulfil p) s' (joined p))).
        -- by rewrite list_lookup_insert_eq.
        -- cbn [state joined]. rewrite Hj. apply andb_false_r.
      * intros j q Hq.
        apply list_lookup_insert_Some in Hq as [(<- & <- & _)|(Hne & Hq)].
        -- cbn [joined]. by rewrite Hj.
        -- by apply (Gr j).
    + destruct Gr as [Gr _].
      destruct (all_joined_lookup _ _ _ Gr Hp) as [Hf _]. by rewrite Hs in Hf.
    + destruct Gr as (i0 & p0 & Hp0 & Hs0 & Hj0).
      exists i0, p0. split_and!; try done.
      rewrite list_lookup_insert_ne; [done|].
      intros <-. rewrite Hp in Hp0. injection Hp0 as <-. by rewrite Hs in Hs0.
Qed.

(** [Promise.all] takes in a settled element: what stays true of the
    elements, whatever becomes of the heap beyond its old cells. *)
Lemma join_slots evs ev w inv i p h' :
  good evs (w, inv) →
  promises inv !! i = Some p → is_pending (state p) = false →
  (∀ l o, heap w !! l = Some o → h' !! l = Some o) →
  ∀ j q, <[i := Promise (on_fulfil p) (state p) true]> (promises inv) !! j = Some q →
         slot_ok (evs ++ [ev]) h' j q.
Proof.
  intros G Hp Hs Hh j q Hq.
  apply list_lookup_insert_Some in Hq as [(<- & <- & _)|(Hne & Hq)].
  - destruct (good_slots _ _ G _ _ Hp) as (H1 & H2 & H0 & Hd & He).
    split_and!; cbn [joined state on_fulfil];
      [done|by apply (settled_by_mono _ _ _ p)|exact H0|exact Hd|].
    intros k Hk. destruct (He k Hk) as (l & e & Hl & He' & Hf & Hc).
    exists l, e. split_and!; try done. by apply Hh.
  - destruct (good_slots _ _ G _ _ Hq) as (H1 & H2 & H0 & Hd & He).
    split_and!; [exact H1|by apply settled_by_mono|exact H0|exact Hd|].
    intros k Hk. destruct (He k Hk) as (l & e & Hl & He' & Hf & Hc).
    exists l, e. split_and!; try done. by apply Hh.
Qed.

Lemma good_join_rejected evs ev w inv i p e :
  good evs (w, inv) →
  promises inv !! i = Some p → state p = Rejected e → joined p = false →
  let inv' := set_promise i (Promise (on_fulfil p) (Rejected e) true) inv in
  good (evs ++ [ev])
    (w, if is_pending (returned inv') then set_returned (Rejected e) inv'
        else inv').
Proof.
  intros G Hp Hs Hj inv'.
  assert (Hlt : i < length (promises inv)) by (eapply lookup_lt_Some; eauto).
  assert (Hslots : ∀ j q, promises inv' !! j = Some q →
                          slot_ok (evs ++ [ev]) (heap w) j q).
  { subst inv'. cbn [promises set_promise]. rewrite <- Hs.
    eapply join_slots; eauto. by rewrite Hs. }
  assert (Hi : promises inv' !! i = Some (Promise (on_fulfil p) (Rejected e) true)).
  { subst inv'. cbn [promises set_promise]. by rewrite list_lookup_insert_eq. }
  assert (Hlen' : length (promises inv') = S (np + length ls)).
  { subst inv'. cbn [promises set_promise].
    rewrite length_insert. apply (good_length _ _ G). }
  destruct G as [Gc Gd Gn Ge Gf Gl Gs Gr]. cbn [fst snd] in *.
  assert (Hret : returned inv' = returned inv) by done.
  rewrite Hret.
  destruct (returned inv) as [|lr|e0] eqn:Hr; cbn [is_pending].
  - constructor; cbn [fst snd set_returned doc node edgeMap promises returned];
      try done.
    exists i, (Promise (on_fulfil p) (Rejected e) true). by split_and!.
  - destruct Gr as [Gr _].
    destruct (all_joined_lookup _ _ _ Gr Hp) as [_ Hj']. congruence.
  - constructor; cbn [fst snd]; try done.
    rewrite Hret. destruct Gr as (i0 & p0 & Hp0 & Hs0 & Hj0).
    destruct (decide (i0 = i)) as [->|Hne].
    + rewrite Hp in Hp0. injection Hp0 as <-.
      rewrite Hs in Hs0. injection Hs0 as <-.
      exists i, (Promise (on_fulfil p) (Rejected e) true). by split_and!.
    + exists i0, p0. split_and!; try done.
      subst inv'. cbn [promises set_promise].
      by rewrite list_lookup_insert_ne.
Qed.

(** When every element is fulfilled and taken in, the objects of
    [edgeMap] hold the data the final callback reads. *)
Lemma captured_cells evs h (ps : list promise) :
  length ps = S (np + length ls) →
  (∀ i p, ps !! i = Some p → slot_ok evs h i p) →
  all_joined ps = true →
  Forall2 (λ l ev, h !! l = Some (captured_edge d ev)) ls (captured ps).
Proof.
  intros Hlen' Hslots Hall. apply Forall2_same_length_lookup_2.
  - unfold captured. rewrite length_zip, length_fmap, length_drop. lia.
  - intros k l ev Hl Hev. unfold captured in Hev.
    apply lookup_zip_with_Some in Hev as (e & v & -> & He & Hv).
    rewrite list_lookup_fmap, lookup_drop in Hv.
    destruct (ps !! (S np + k)) as [q|] eqn:Hq; [|done].
    cbn in Hv. injection Hv as <-.
    destruct (Hslots _ _ Hq) as (_ & _ & _ & _ & Hedge).
    destruct (Hedge k eq_refl) as (l' & e' & Hl' & He' & _ & Hcell).
    rewrite Hl in Hl'. injection Hl' as <-.
    rewrite He in He'. injection He' as <-.
    destruct (all_joined_lookup _ _ _ Hall Hq) as [Hf _].
    rewrite Hcell. unfold fulfilled_value, edge_cell.
    by destruct (state q).
Qed.

Lemma good_join_fulfilled evs ev w inv i p v st' :
  good evs (w, inv) →
  promises inv !! i = Some p → state p = Fulfilled v → joined p = false →
  let inv' := set_promise i (Promise (on_fulfil p) (Fulfilled v) true) inv in
  (if all_joined (promises inv') && is_pending (returned inv') then
     match on_all_fulfilled inv' w with
     | (w', Return result) => Some (w', set_returned (Fulfilled result) inv')
     | (w', Throw e) => Some (w', set_returned (Rejected e) inv')
     end
   else Some (w, inv')) = Some st' →
  good (evs ++ [ev]) st'.
Proof.
  intros G Hp Hs Hj inv' Hst.
  assert (Hslots : ∀ h', (∀ l o, heap w !! l = Some o → h' !! l = Some o) →
            ∀ j q, promises inv' !! j = Some q → slot_ok (evs ++ [ev]) h' j q).
  { intros h' Hh. subst inv'. cbn [promises set_promise]. rewrite <- Hs.
    eapply join_slots; eauto. by rewrite Hs. }
  assert (Hi : promises inv' !! i = Some (Promise (on_fulfil p) (Fulfilled v) true)).
  { subst inv'. cbn [promises set_promise]. rewrite list_lookup_insert_eq; [done|].
    eapply lookup_lt_Some; eauto. }
  assert (Hlen' : length (promises inv') = S (np + length ls)).
  { subst inv'. cbn [promises set_promise].
    rewrite length_insert. apply (good_length _ _ G). }
  assert (Hret : returned inv' = returned inv) by done.
  assert (G' : returned inv = Pending → all_joined (promises inv') = false →
               good (evs ++ [ev]) (w, inv')).
  { intros Hr Hall. destruct G as [Gc Gd Gn Ge Gf Gl Gs Gr]. cbn [fst snd] in *.
    constructor; cbn [fst snd]; try done; [by apply Hslots|].
    rewrite Hret, Hr. rewrite Hr in Gr. destruct Gr as [_ Gr]. split; [done|].
    intros j q Hq. subst inv'. cbn [promises set_promise] in Hq.
    apply list_lookup_insert_Some in Hq as [(<- & <- & _)|(Hne & Hq)]; [done|].
    by apply (Gr j). }
  assert (G'' : ∀ e0, returned inv = Rejected e0 → good (evs ++ [ev]) (w, inv')).
  { intros e0 Hr. destruct G as [Gc Gd Gn Ge Gf Gl Gs Gr]. cbn [fst snd] in *.
    constructor; cbn [fst snd]; try done; [by apply Hslots|].
    rewrite Hret, Hr. rewrite Hr in Gr. destruct Gr as (i0 & p0 & Hp0 & Hs0 & Hj0).
    exists i0, p0. split_and!; try done.
    subst inv'. cbn [promises set_promise]. rewrite list_lookup_insert_ne; [done|].
    intros <-. congruence. }
  assert (Hnf : ∀ lr, returned inv ≠ Fulfilled lr).
  { intros lr Hr. pose proof (good_returned _ _ G) as Gr. cbn [snd] in Gr.
    rewrite Hr in Gr. destruct Gr as [Gr _].
    destruct (all_joined_lookup _ _ _ Gr Hp) as [_ Hj']. congruence. }
  rewrite Hret in Hst.
  destruct (all_joined (promises inv')) eqn:Hall;
    destruct (returned inv) as [|lr|e0] eqn:Hr; cbn [andb is_pending] in Hst;
    try (by destruct (Hnf lr));
    try (injection Hst as <-; by eauto).
  assert (Hinv : inv' = Invocation docl nd ls (promises inv') Pending).
  { subst inv'. destruct inv. unfold set_promise.
    cbn [doc node edgeMap promises returned] in *.
    rewrite <- (good_doc _ _ G), <- (good_node _ _ G), <- (good_edgeMap _ _ G).
    cbn [snd doc node edgeMap]. by rewrite Hr. }
  set (lr := fresh (dom (heap w))).
  assert (Hlr : heap w !! lr = None) by apply fresh_lookup.
  rewrite Hinv in Hst.
  rewrite (on_all_fulfilled_run d docl nd ls (captured (promises inv'))) in Hst.
  2: { apply (good_frame _ _ G), Hdoc0. }
  2: { eapply captured_cells; eauto. }
  fold lr in Hst. injection Hst as <-.
  assert (Hh : ∀ l o, heap w !! l = Some o →
                      <[lr := result_object nd d (captured (promises inv'))]> (heap w) !! l = Some o).
  { intros l o Hl. rewrite lookup_insert_ne; [done|]. intros <-. congruence. }
  pose proof G as [Gc Gd Gn Ge Gf Gl Gs Gr]. cbn [fst snd] in *.
  constructor; cbn [fst snd set_returned heap calls doc node edgeMap promises returned];
    try done.
  - intros l o Hl. by apply Hh, Gf.
  - by apply Hslots.
  - split_and!; [done| | |by rewrite lookup_insert_eq].
    + destruct (h0 !! lr) as [o|] eqn:Ho; [|done].
      apply Gf in Ho. congruence.
    + intros Hin. apply list_elem_of_lookup_1 in Hin as [k Hk].
      destruct (good_edge_cell _ _ _ _ G Hk) as [o Ho]. cbn [fst] in Ho.
      congruence.
Qed.

Lemma last_event (evs : list event) (ev : event) : ev ∈ evs ++ [ev].
Proof. apply elem_of_app. right. by apply list_elem_of_singleton. Qed.

(** One event keeps the state good. *)
Lemma step_good evs ev st st' :
  good evs st → step ev st = Some st' → good (evs ++ [ev]) st'.
Proof.
  destruct st as [[h cs'] inv]. intros G Hstep.
  destruct ev as [i o|i]; cbn [step fst snd] in Hstep.
  - unfold settle in Hstep.
    destruct (promises inv !! i) as [p|] eqn:Hp; [|done]. cbn in Hstep.
    destruct (state p) eqn:Hs; cbn [is_pending] in Hstep; try done.
    pose proof (good_slots _ _ G _ _ Hp) as (_ & _ & _ & Hd & He).
    cbn [fst snd] in Hd, He. rewrite Hs in He.
    destruct o as [r|e].
    + destruct (on_fulfil p) as [|edge] eqn:Hh.
      * injection Hstep as <-. rewrite <- Hh.
        apply (good_settle evs _ (World h cs') inv i p (Fulfilled r) h); try done.
        -- right. exists r. cbn [on_fulfil]. rewrite Hh.
           split; [apply last_event|done].
        -- intros k l e Hk. destruct (He k Hk) as (? & ? & _ & _ & ? & _). done.
      * assert (Hk : i = S (np + (i - S np))).
        { destruct (decide (i < S np)) as [Hlt|]; [|lia].
          specialize (Hd Hlt). done. }
        destruct (He _ Hk) as (l & e & Hl & He' & Hedge & Hcell).
        injection Hedge as ->. cbn [edge_cell] in Hcell.
        destruct (item_data r) as [data|e0] eqn:Hdata.
        -- injection Hstep as <-. rewrite <- Hh.
           unfold store. cbn [fst heap calls].
           rewrite (deref_lookup h l (edge_object d e) Hcell).
           apply (good_settle evs _ (World h cs') inv i p (Fulfilled data)); try done.
           ++ right. exists r. cbn [on_fulfil]. rewrite Hh.
              split; [apply last_event|done].
           ++ intros l' o Hl' Hne. rewrite lookup_insert_ne; [done|].
              intros <-. by apply (Hne _ Hk).
           ++ intros k l' e' Hk' Hl' He''.
              assert (k = i - S np) as -> by lia.
              rewrite Hl in Hl'. injection Hl' as <-.
              rewrite He' in He''. injection He'' as <-.
              by rewrite lookup_insert_eq.
        -- injection Hstep as <-. rewrite <- Hh.
           apply (good_settle evs _ (World h cs') inv i p (Rejected e0) h); try done.
           ++ right. exists r. cbn [on_fulfil]. rewrite Hh.
              split; [apply last_event|done].
           ++ intros k l' e' Hk' Hl' He''.
              assert (k = i - S np) as -> by lia.
              rewrite Hl in Hl'. injection Hl' as <-.
              rewrite He' in He''. by injection He'' as <-.
    + injection Hstep as <-.
      apply (good_settle evs _ (World h cs') inv i p (Rejected e) h); try done.
      * left. apply last_event.
      * intros k l e' Hk Hl He'.
        destruct (He k Hk) as (l' & e'' & Hl' & He'' & _ & Hcell).
        rewrite Hl in Hl'. injection Hl' as <-.
        rewrite He' in He''. by injection He'' as <-.
  - unfold join in Hstep.
    destruct (promises inv !! i) as [p|] eqn:Hp; [|done]. cbn in Hstep.
    destruct (joined p) eqn:Hj; [done|].
    destruct (state p) as [|v|e] eqn:Hs; [done| |].
    + eapply good_join_fulfilled; eauto.
    + injection Hstep as <-. by apply good_join_rejected.
Qed.

Lemma run_good evs0 evs st0 st :
  good evs0 st0 → run evs st0 = Some st → good (evs0 ++ evs) st.
Proof.
  revert evs0 st0. induction evs as [|ev evs IH]; intros evs0 st0 G Hrun.
  - injection Hrun as <-. by rewrite app_nil_r.
  - cbn [run] in Hrun. destruct (step ev st0) as [st1|] eqn:Hstep; [|done].
    cbn in Hrun. replace (evs0 ++ ev :: evs) with ((evs0 ++ [ev]) ++ evs)
      by (by rewrite <- app_assoc).
    eapply IH; [|exact Hrun]. by eapply step_good.
Qed.

(** The state the synchronous part leaves is good. *)
Lemma initial_good (h : gmap loc (gmap string value)) :
  Forall2 (λ l e, h !! l = Some (edge_object d e)) ls es →
  (∀ l o, h0 !! l = Some o → h !! l = Some o) →
  good []
    (World h cs,
     Invocation docl nd ls
       (resolved VUndefined :: replicate np property_promise ++ (edge_promise <$> ls))
       Pending).
Proof.
  intros Hall Hframe.
  assert (Hj : ∀ i p,
    (resolved VUndefined :: replicate np property_promise ++ (edge_promise <$> ls))
      !! i = Some p → joined p = false).
  { intros [|i] p Hp; [by injection Hp as <-|]. cbn in Hp.
    apply lookup_app_Some in Hp as [Hp|[_ Hp]].
    - apply lookup_replicate in Hp as [-> _]. done.
    - rewrite list_lookup_fmap in Hp.
      destruct (ls !! _); [|done]. by injection Hp as <-. }
  constructor; cbn [fst snd heap calls doc node edgeMap promises returned];
    try done.
  - cbn [length]. by rewrite length_app, length_replicate, length_fmap.
  - intros [|i] p Hp.
    + injection Hp as <-. split_and!; try done; try lia. by left.
    + cbn in Hp. apply lookup_app_Some in Hp as [Hp|[Hge Hp]].
      * apply lookup_replicate in Hp as [-> Hlt].
        split_and!; try done; lia.
      * rewrite length_replicate in Hge, Hp.
        rewrite list_lookup_fmap in Hp.
        destruct (ls !! (i - np)) as [l|] eqn:Hl; [|done].
        injection Hp as <-.
        split_and!; try done; try lia.
        intros k Hk. assert (k = i - np) as -> by lia.
        destruct (Forall2_lookup_l _ _ _ _ _ Hall Hl) as (e & He & Hcell).
        exists l, e. by split_and!.
  - split.
    + by apply (all_joined_false _ 0 (resolved VUndefined)).
    + intros i p Hp Hjp. apply Hj in Hp. congruence.
Qed.
End Asynchronous.

(** ** Reading the trace of store calls *)

Lemma occurrences_present d names name :
  occurrences name (present d names)
  = if is_undefined (getp d name) then 0 else occurrences name names.
Proof.
  unfold occurrences, present. induction names as [|x names IH].
  - by destruct (is_undefined _).
  - rewrite (filter_cons (λ x, x = name)), (filter_cons _ x names).
    destruct (decide (x = name)) as [->|Hne].
    + destruct (is_undefined (getp d name)) eqn:Hu.
      * rewrite decide_False; [exact IH|]. intros H. by apply H.
      * rewrite decide_True by (by intros []).
        rewrite filter_cons, decide_True by done.
        cbn [length]. by rewrite IH.
    + destruct (decide (¬ is_undefined (getp d x))).
      * by rewrite filter_cons, decide_False.
      * exact IH.
Qed.

Lemma occurrences_NoDup name names :
  NoDup names → name ∈ names → occurrences name names = 1.
Proof.
  unfold occurrences. induction 1 as [|x names Hx Hnd IH]; intros Hin.
  - inversion Hin.
  - rewrite filter_cons. destruct (decide (x = name)) as [->|Hne].
    + cbn [length]. f_equal. apply length_zero_iff_nil.
      apply elem_of_nil_inv. intros y Hy%list_elem_of_filter.
      destruct Hy as [-> Hy]. done.
    + apply elem_of_cons in Hin as [->|Hin]; [done|]. by apply IH.
Qed.

Lemma occurrences_not_listed name names :
  name ∉ names → occurrences name names = 0.
Proof.
  intros Hn. unfold occurrences. apply length_zero_iff_nil.
  apply elem_of_nil_inv. intros y Hy%list_elem_of_filter.
  destruct Hy as [-> Hy]. done.
Qed.

Lemma property_calls_issued t n m d (ps es : list string) :
  property_calls ((property_call t n m d <$> ps) ++ (edge_call t n m d <$> es))
  = property_call t n m d <$> ps.
Proof.
  unfold property_calls. rewrite filter_app.
  replace (filter (λ c, is_createProperty c) (edge_call t n m d <$> es))
    with (@nil call).
  - rewrite app_nil_r. induction ps as [|p ps IH]; [done|].
    cbn [fmap list_fmap]. rewrite filter_cons_True by (cbn; exact I).
    f_equal. exact IH.
  - induction es as [|e es IH]; [done|].
    cbn [fmap list_fmap]. rewrite filter_cons_False; [exact IH|].
    cbn. by intros [].
Qed.

Lemma edge_calls_issued t n m d (ps es : list string) :
  edge_calls ((property_call t n m d <$> ps) ++ (edge_call t n m d <$> es))
  = edge_call t n m d <$> es.
Proof.
  unfold edge_calls. rewrite filter_app.
  replace (filter (λ c, is_createEdge c) (property_call t n m d <$> ps))
    with (@nil call).
  - cbn [app]. induction es as [|e es IH]; [done|].
    cbn [fmap list_fmap]. rewrite filter_cons_True by (cbn; exact I).
    f_equal. exact IH.
  - induction ps as [|p ps IH]; [done|].
    cbn [fmap list_fmap]. rewrite filter_cons_False; [exact IH|].
    cbn. by intros [].
Qed.

Lemma has_type_calls (f : string → call) name (names : list string) :
  (∀ x, call_type (f x) = VStr x) →
  length (filter (λ c, has_type name c) (f <$> names)) = occurrences name names.
Proof.
  intros Hf. unfold occurrences. induction names as [|p ps IH]; [done|].
  cbn [fmap list_fmap].
  assert (Hp : has_type name (f p) = bool_decide (p = name)).
  { unfold has_type. by rewrite Hf. }
  destruct (decide (p = name)) as [->|Hne].
  - rewrite !filter_cons_True; [cbn [length]; by rewrite IH|done|].
    rewrite Hp. by apply bool_decide_pack.
  - rewrite !filter_cons_False; [exact IH|done|].
    rewrite Hp. by intros ?%bool_decide_unpack.
Qed.

(** ** A configured call, from [create] to any state it can reach *)

Lemma create_Return o f :
  create o = Return f →
  ∃ db0, db o = Some db0
    ∧ is_undefined (type o) = false
    ∧ is_undefined (key o) = false
    ∧ is_undefined (maxGSIK o) = false
    ∧ f = update db0 (tenant o) (maxGSIK o)
            (default [] (properties o)) (default [] (edges o)).
Proof.
  unfold create. destruct (db o) as [db0|]; [|done].
  destruct (is_undefined (type o)); [done|].
  destruct (is_undefined (key o)); [done|].
  destruct (is_undefined (maxGSIK o)); [done|].
  intros [= <-]. by exists db0.
Qed.

Section Call.
Variables (o : options) (f : loc → M invocation).
Variables (docl : loc) (d : gmap string value) (w : world).
Hypothesis Hcreate : create o = Return f.
Hypothesis Hdoc : heap w !! docl = Some d.
Hypothesis Hid : is_undefined (getp d "id") = false.

Let P := present d (default [] (properties o)).
Let E := present d (default [] (edges o)).
Let nd := getp d "id".

Lemma call_started :
  ∃ ls h',
    let st0 :=
      (World h' (calls w ++ issued o d),
       Invocation docl nd ls
         (resolved VUndefined
            :: replicate (length P) property_promise ++ (edge_promise <$> ls))
         Pending) in
    f docl w = (st0.1, Return st0.2)
    ∧ NoDup ls
    ∧ (∀ l, l ∈ ls → heap w !! l = None)
    ∧ length ls = length E
    ∧ Forall2 (λ l e, h' !! l = Some (edge_object d e)) ls E
    ∧ (∀ l x, heap w !! l = Some x → h' !! l = Some x)
    ∧ ∀ evs st, run evs st0 = Some st →
        good d docl nd (length P) E ls (heap w) (calls w ++ issued o d) evs st.
Proof.
  destruct (create_Return _ _ Hcreate) as (db0 & _ & _ & _ & _ & ->).
  pose proof (deref_lookup _ _ _ Hdoc) as Hd.
  destruct (update_started db0 (tenant o) (maxGSIK o)
              (default [] (properties o)) (default [] (edges o)) docl w)
    as (ls & h' & Hrun & Hall & Hnd & Hfresh & Hpres & Hnone).
  { by rewrite Hd. }
  rewrite Hd in Hrun, Hall. fold P E nd in Hrun, Hall.
  rewrite (const_fmap _ P property_promise) in Hrun by done.
  exists ls, h'. cbn zeta. cbn [fst snd].
  assert (Hlen : length ls = length E) by (by eapply Forall2_length).
  split_and!; try done.
  intros evs st Hst.
  eapply (run_good d docl nd (length P) E ls (heap w) (calls w ++ issued o d)
            Hdoc Hnd Hfresh Hlen [] evs); [|exact Hst].
  by apply initial_good.
Qed.
End Call.

(** ** Settled is settled *)

Lemma settle_state i o st st' :
  step (Settle i o) st = Some st' →
  ∃ p, promises st.2 !! i = Some p ∧ state p = Pending
       ∧ promises st'.2 !! i
         = Some (Promise (on_fulfil p) (settlement (on_fulfil p) o) (joined p))
       ∧ returned st'.2 = returned st.2.
Proof.
  destruct st as [w inv]. cbn [step fst snd]. unfold settle. intros Hstep.
  destruct (promises inv !! i) as [p|] eqn:Hp; [|done]. cbn in Hstep.
  assert (Hlt : i < length (promises inv)) by (eapply lookup_lt_Some; eauto).
  destruct (state p) eqn:Hs; cbn [is_pending] in Hstep; try done.
  exists p. split_and!; try done.
  - destruct o as [r|e]; cbn [settlement].
    + destruct (on_fulfil p) as [|edge]; cbn [delivered].
      * injection Hstep as <-. cbn. by rewrite list_lookup_insert_eq.
      * destruct (item_data r); injection Hstep as <-; cbn;
          by rewrite list_lookup_insert_eq.
    + injection Hstep as <-. cbn. by rewrite list_lookup_insert_eq.
  - destruct o as [r|e].
    + destruct (on_fulfil p) as [|edge]; [by injection Hstep as <-|].
      destruct (item_data r); by injection Hstep as <-.
    + by injection Hstep as <-.
Qed.

(** [promises] of the state a [Join] leads to. *)
Lemma join_state i st st' :
  step (Join i) st = Some st' →
  ∃ p, promises st.2 !! i = Some p ∧ joined p = false
       ∧ is_pending (state p) = false
       ∧ promises st'.2 = <[i := Promise (on_fulfil p) (state p) true]> (promises st.2)
       ∧ (is_pending (returned st.2) = false → returned st'.2 = returned st.2)
       ∧ (∀ e, state p = Rejected e → is_pending (returned st.2) = true →
               returned st'.2 = Rejected e).
Proof.
  destruct st as [w inv]. cbn [step fst snd]. unfold join. intros Hstep.
  destruct (promises inv !! i) as [p|] eqn:Hp; [|done].
  cbn [mbind option_bind] in Hstep.
  destruct (joined p) eqn:Hj; [done|].
  destruct (state p) as [|v|e] eqn:Hs; [done| |].
  - exists p. rewrite Hs. split_and!; [done|done|done| | |done].
    + destruct (all_joined _ && is_pending _).
      * destruct (on_all_fulfilled _ w) as [w' [lr|e]]; by injection Hstep as <-.
      * by injection Hstep as <-.
    + intros Hr. cbn [returned set_promise] in Hstep. rewrite Hr in Hstep.
      rewrite andb_false_r in Hstep. by injection Hstep as <-.
  - exists p. rewrite Hs. split_and!; [done|done|done| | |].
    + injection Hstep as <-. cbn [snd]. by destruct (is_pending _).
    + intros Hr. injection Hstep as <-. cbn [returned set_promise].
      by rewrite Hr.
    + intros e' [= <-] Hr. injection Hstep as <-. cbn [returned set_promise].
      by rewrite Hr.
Qed.

(** An event leaves a settled element in its state. *)
Lemma step_state_stable ev st st' i p :
  step ev st = Some st' →
  promises st.2 !! i = Some p → is_pending (state p) = false →
  ∃ p', promises st'.2 !! i = Some p' ∧ state p' = state p
        ∧ on_fulfil p' = on_fulfil p.
Proof.
  intros Hstep Hp Hs. destruct ev as [j o|j].
  - destruct (settle_state _ _ _ _ Hstep) as (q & Hq & Hsq & Hq' & _).
    destruct (decide (i = j)) as [->|Hne].
    + rewrite Hp in Hq. injection Hq as <-. by rewrite Hsq in Hs.
    + exists p. split_and!; try done.
      destruct st as [w inv]. cbn [step fst snd] in *. unfold settle in Hstep.
      rewrite Hq in Hstep. cbn in Hstep. rewrite Hsq in Hstep.
      cbn [is_pending] in Hstep.
      destruct o as [r|e]; [destruct (on_fulfil q) as [|edge];
        [|destruct (item_data r)]|]; injection Hstep as <-; cbn;
        by rewrite list_lookup_insert_ne.
  - destruct (join_state _ _ _ Hstep) as (q & Hq & _ & _ & Hps & _).
    rewrite Hps. destruct (decide (i = j)) as [->|Hne].
    + rewrite Hp in Hq. injection Hq as <-.
      eexists. split; [apply list_lookup_insert_eq|done].
      eapply lookup_lt_Some; eauto.
    + exists p. by rewrite list_lookup_insert_ne.
Qed.

Lemma run_state_stable evs st st' i p :
  run evs st = Some st' →
  promises st.2 !! i = Some p → is_pending (state p) = false →
  ∃ p', promises st'.2 !! i = Some p' ∧ state p' = state p
        ∧ on_fulfil p' = on_fulfil p.
Proof.
  revert st p. induction evs as [|ev evs IH]; intros st p Hrun Hp Hs.
  - injection Hrun as <-. by exists p.
  - cbn [run] in Hrun. destruct (step ev st) as [st1|] eqn:Hstep; [|done].
    destruct (step_state_stable _ _ _ _ _ Hstep Hp Hs) as (p1 & Hp1 & Hs1 & Hh1).
    destruct (IH st1 p1 Hrun Hp1) as (p' & Hp' & Hs' & Hh'); [by rewrite Hs1|].
    exists p'. split_and!; congruence.
Qed.

(** The returned promise, once settled, stays as it is. *)
Lemma step_returned_stable ev st st' :
  step ev st = Some st' → is_pending (returned st.2) = false →
  returned st'.2 = returned st.2.
Proof.
  intros Hstep Hr. destruct ev as [j o|j].
  - by destruct (settle_state _ _ _ _ Hstep) as (_ & _ & _ & _ & ->).
  - destruct (join_state _ _ _ Hstep) as (_ & _ & _ & _ & _ & Hret & _). auto.
Qed.

Lemma run_returned_stable evs st st' :
  run evs st = Some st' → is_pending (returned st.2) = false →
  returned st'.2 = returned st.2.
Proof.
  revert st. induction evs as [|ev evs IH]; intros st Hrun Hr.
  - by injection Hrun as <-.
  - cbn [run] in Hrun. destruct (step ev st) as [st1|] eqn:Hstep; [|done].
    pose proof (step_returned_stable _ _ _ Hstep Hr) as H1.
    rewrite (IH st1 Hrun); [done|]. by rewrite H1.
Qed.

Lemma run_app evs1 evs2 st :
  run (evs1 ++ evs2) st = run evs1 st ≫= run evs2.
Proof.
  revert st. induction evs1 as [|ev evs1 IH]; intros st; [done|].
  cbn [app run]. destruct (step ev st) as [st1|]; [|done]. cbn. apply IH.
Qed.

(** ** Looking keys up in the result *)

Lemma at_key_inj a b : "@" +:+ a = "@" +:+ b → a = b.
Proof. cbn. intros Heq. by injection Heq. Qed.

Lemma edge_entries_other acc (pairs : list (string * value)) key :
  (∀ e, e ∈ pairs.*1 → key ≠ "@" +:+ e) →
  edge_entries acc pairs !! key = acc !! key.
Proof.
  revert acc. induction pairs as [|[e v] pairs IH]; intros acc Hkey; [done|].
  cbn [edge_entries foldl fst snd]. fold (edge_entries (<["@" +:+ e := v]> acc) pairs).
  rewrite IH.
  - apply lookup_insert_ne. intros Heq. apply (Hkey e); [|done].
    cbn. apply elem_of_cons. by left.
  - intros e' He'. apply Hkey. cbn. apply elem_of_cons. by right.
Qed.

Lemma edge_entries_at acc (pairs : list (string * value)) k e v :
  NoDup pairs.*1 → pairs !! k = Some (e, v) →
  edge_entries acc pairs !! ("@" +:+ e) = Some v.
Proof.
  revert acc k. induction pairs as [|[e' v'] pairs IH]; intros acc k Hnd Hk;
    [done|].
  cbn [fmap list_fmap fst] in Hnd. apply NoDup_cons in Hnd as [Hnotin Hnd].
  cbn [edge_entries foldl fst snd].
  fold (edge_entries (<["@" +:+ e' := v']> acc) pairs).
  destruct k as [|k].
  - injection Hk as -> ->. rewrite edge_entries_other.
    + apply lookup_insert_eq.
    + intros e2 He2 Heq%at_key_inj. by subst.
  - by apply (IH _ k).
Qed.

Lemma result_object_keeps nd d pairs key v :
  d !! key = Some v → key ≠ "__proto__" →
  (∀ e, e ∈ pairs.*1 → key ≠ "@" +:+ e) →
  result_object nd d pairs !! key = Some v.
Proof.
  intros Hd Hproto Hkey. rewrite result_object_eq.
  rewrite lookup_union_r by (by rewrite edge_entries_other).
  apply lookup_union_Some_l. by rewrite lookup_delete_ne.
Qed.

(** An own [__proto__] of the document is not a key of the result. *)
Lemma result_object_proto nd d pairs :
  result_object nd d pairs !! "__proto__" = None.
Proof.
  rewrite result_object_eq. apply lookup_union_None. split.
  - by apply edge_entries_proto.
  - apply lookup_union_None. split; [apply lookup_delete_eq|done].
Qed.

Lemma result_object_at nd d pairs k e v :
  NoDup pairs.*1 → pairs !! k = Some (e, v) →
  result_object nd d pairs !! ("@" +:+ e) = Some v.
Proof.
  intros Hnd Hk. rewrite result_object_eq.
  apply lookup_union_Some_l. by eapply edge_entries_at.
Qed.

(** ** Events that can happen *)

Lemma all_joined_intro ps :
  (∀ i p, ps !! i = Some p → is_fulfilled (state p) = true ∧ joined p = true) →
  all_joined ps = true.
Proof.
  intros H. unfold all_joined. apply Is_true_true, forallb_True, Forall_lookup.
  intros i p Hp. destruct (H i p Hp) as [-> ->]. done.
Qed.

(** The driver may settle any element that is pending. *)
Lemma settle_enabled i o st p :
  promises st.2 !! i = Some p → state p = Pending →
  is_Some (step (Settle i o) st).
Proof.
  intros Hp Hs. destruct st as [w inv]. cbn [step fst snd] in *.
  unfold settle. rewrite Hp. cbn [mbind option_bind]. rewrite Hs.
  cbn [is_pending].
  destruct o as [r|e]; [|by eauto].
  destruct (on_fulfil p); [by eauto|]. destruct (item_data r); by eauto.
Qed.

(** [Promise.all] may take in any settled element it has not taken in. *)
Lemma join_enabled i st p :
  promises st.2 !! i = Some p → is_pending (state p) = false →
  joined p = false → is_Some (step (Join i) st).
Proof.
  intros Hp Hs Hj. destruct st as [w inv]. cbn [step fst snd] in *.
  unfold join. rewrite Hp. cbn [mbind option_bind]. rewrite Hj.
  destruct (state p) as [|v|e]; [done| |by eauto].
  destruct (all_joined _ && is_pending _); [|by eauto].
  destruct (on_all_fulfilled _ w) as [w' [lr|e]]; by eauto.
Qed.

(** [response.Item.Data] of a response that has an [Item] object. *)
Lemma item_data_object fields item :
  fields !! "Item" = Some (VObj item) →
  item_data (VObj fields) = Return (getp item "Data").
Proof. intros Hitem. unfold item_data, member, getp at 1. by rewrite Hitem. Qed.

(** Reading [response.Item.Data] throws exactly when there is no [Item],
    and what it throws is a [TypeError]. *)
Lemma item_data_without_item response :
  without_item response = true →
  ∃ message, item_data response = Throw (TypeError message).
Proof.
  unfold without_item, item_data.
  destruct response as [| | | | |fields]; cbn [member]; try by eauto.
  destruct (getp fields "Item"); cbn [member]; by eauto.
Qed.

Lemma item_data_throws response err :
  item_data response = Throw err →
  without_item response = true ∧ ∃ message, err = TypeError message.
Proof.
  unfold without_item, item_data.
  destruct response as [| | | | |fields]; cbn [member];
    try (intros [= <-]; by eauto).
  destruct (getp fields "Item"); cbn [member]; try done;
    intros [= <-]; by eauto.
Qed.

Lemma none_rejected_yet_lookup ps i p :
  none_rejected_yet ps = true → ps !! i = Some p → joined p = true →
  is_fulfilled (state p) = true.
Proof.
  unfold none_rejected_yet. intros Hall Hp Hj.
  apply Is_true_true, forallb_True in Hall.
  rewrite Forall_lookup in Hall. specialize (Hall i p Hp).
  rewrite Hj in Hall. by apply Is_true_true.
Qed.

(** A run of a call that ends with the returned promise fulfilled. *)
Lemma ends_fulfilled f docl w evs :
  (λ st, is_fulfilled (returned st.2)) <$> (started f docl w ≫= run evs)
  = Some true →
  ∃ st0 st r,
    started f docl w = Some st0 ∧ run evs st0 = Some st
    ∧ returned st.2 = Fulfilled r.
Proof.
  destruct (started f docl w) as [st0|] eqn:Hst0; [|done].
  cbn [mbind option_bind].
  destruct (run evs st0) as [st|] eqn:Hst; [|done].
  cbn [fmap option_fmap option_map].
  destruct (returned st.2) as [|r|] eqn:Hr; [done| |done].
  intros _. by exists st0, st, r.
Qed.

(** The call of the example starts, and its run ends fulfilled. *)
Lemma book_run_fulfilled :
  ∃ st0 st r,
    started book_update 5%positive shelf = Some st0
    ∧ run book_run st0 = Some st
    ∧ returned st.2 = Fulfilled r.
Proof. apply ends_fulfilled. vm_compute. reflexivity. Qed.

Lemma book_started : ∃ st0, started book_update 5%positive shelf = Some st0.
Proof. destruct book_run_fulfilled as (st0 & _ & _ & Hst0 & _). eauto. Qed.

(** A call that has started was made on a document with an [id]; the
    state it starts in, and every state it reaches, is good. *)
Lemma started_good o f docl d w st0 :
  create o = Return f →
  heap w !! docl = Some d →
  started f docl w = Some st0 →
  let P := present d (default [] (properties o)) in
  let E := present d (default [] (edges o)) in
  is_undefined (getp d "id") = false
  ∧ ∃ ls h',
      st0 = (World h' (calls w ++ issued o d),
             Invocation docl (getp d "id") ls
               (resolved VUndefined
                  :: replicate (length P) property_promise ++ (edge_promise <$> ls))
               Pending)
      ∧ NoDup ls
      ∧ length ls = length E
      ∧ ∀ evs st, run evs st0 = Some st →
          good d docl (getp d "id") (length P) E ls (heap w)
            (calls w ++ issued o d) evs st.
Proof.
  intros Hcreate Hdoc Hst0 P E.
  destruct (is_undefined (getp d "id")) eqn:Hid.
  - destruct (create_Return _ _ Hcreate) as (db0 & _ & _ & _ & _ & ->).
    unfold started in Hst0. rewrite update_throws in Hst0; [done|].
    by rewrite (deref_lookup _ _ _ Hdoc).
  - split; [done|].
    destruct (call_started o f docl d w Hcreate Hdoc Hid)
      as (ls & h' & Hrun & Hnd & _ & Hlen & _ & _ & Hgood).
    cbn zeta in Hrun, Hgood. cbn [fst snd] in Hrun.
    unfold started in Hst0. rewrite Hrun in Hst0. injection Hst0 as <-.
    exists ls, h'. by split_and!.
Qed.

(** When the returned promise is fulfilled: the values the edge promises
    were fulfilled with, where each came from, and the result they make. *)
Lemma fulfilled_datas d docl nd np es ls h0 cs evs st r :
  good d docl nd np es ls h0 cs evs st →
  returned st.2 = Fulfilled r →
  let datas := fulfilled_value <$> drop (S np) (promises st.2) in
  length datas = length ls
  ∧ (∀ k v, datas !! k = Some v →
       ∃ response, Settle (S (np + k)) (Resolve response) ∈ evs
                   ∧ item_data response = Return v)
  ∧ heap st.1 !! r = Some (result_object nd d (zip es datas)).
Proof.
  intros G Hret datas.
  pose proof (good_returned _ _ _ _ _ _ _ _ _ _ G) as Gr. rewrite Hret in Gr.
  destruct Gr as (Hjoined & _ & _ & Hcell).
  split_and!.
  - unfold datas. rewrite length_fmap, length_drop.
    rewrite (good_length _ _ _ _ _ _ _ _ _ _ G). lia.
  - intros k v Hk. unfold datas in Hk.
    rewrite list_lookup_fmap, lookup_drop in Hk.
    destruct (promises st.2 !! (S np + k)) as [q|] eqn:Hq; [|done].
    cbn in Hk. injection Hk as <-.
    destruct (all_joined_lookup _ _ _ Hjoined Hq) as [Hf _].
    destruct (good_slots _ _ _ _ _ _ _ _ _ _ G _ _ Hq)
      as (_ & Hby & _ & _ & Hedge).
    destruct (Hedge k eq_refl) as (l & e & _ & _ & Hh & _).
    unfold settled_by in Hby. unfold fulfilled_value.
    destruct (state q) as [|v|]; try done.
    destruct Hby as [?|(resp & Hin & Hdel)]; [done|].
    rewrite Hh in Hdel. by exists resp.
  - exact Hcell.
Qed.

(** ** Document Update, property by property *)

Lemma property_call_type t n m d x : call_type (property_call t n m d x) = VStr x.
Proof. reflexivity. Qed.

Lemma edge_call_type t n m d x : call_type (edge_call t n m d x) = VStr x.
Proof. reflexivity. Qed.

(** C1. With recognized property names [P], a document with a node id
    gets exactly the [createProperty] calls of the names of [P] that are
    not undefined in it, in the order of [P], each with the configured
    tenant and maxGSIK, the node id, the name as type and the document's
    value as data: one call per listed occurrence (exactly one when [P]
    lists the name once), none for a name that is absent or not listed;
    and later events add no call. *)
Theorem C1_createProperty_per_present_name o f docl d w :
  create o = Return f →
  heap w !! docl = Some d →
  is_undefined (getp d "id") = false →
  let P := default [] (properties o) in
  ∃ w0 inv0,
    f docl w = (w0, Return inv0)
    ∧ property_calls (issued_by w w0)
      = (λ p, CreateProperty (tenant o) (VStr p) (getp d "id") (getp d p) (maxGSIK o))
          <$> filter (λ p, ¬ is_undefined (getp d p)) P
    ∧ (∀ p, count_calls p (property_calls (issued_by w w0))
            = if is_undefined (getp d p) then 0 else occurrences p P)
    ∧ (∀ p, NoDup P → p ∈ P → is_undefined (getp d p) = false →
            count_calls p (property_calls (issued_by w w0)) = 1)
    ∧ (∀ p, p ∉ P ∨ is_undefined (getp d p) = true →
            count_calls p (property_calls (issued_by w w0)) = 0)
    ∧ (∀ evs st, run evs (w0, inv0) = Some st → calls st.1 = calls w0).
Proof.
  intros Hcreate Hdoc Hid P.
  destruct (call_started o f docl d w Hcreate Hdoc Hid)
    as (ls & h' & Hrun & _ & _ & _ & _ & _ & Hgood).
  cbn zeta in Hrun, Hgood. cbn [fst snd] in Hrun.
  eexists _, _. split; [exact Hrun|].
  assert (Hcalls : property_calls (issued_by w (World h' (calls w ++ issued o d)))
                   = property_call (tenant o) (getp d "id") (maxGSIK o) d
                       <$> present d P).
  { unfold issued_by. cbn [calls]. rewrite drop_app_length.
    apply property_calls_issued. }
  assert (Hcount : ∀ p,
    count_calls p (property_calls (issued_by w (World h' (calls w ++ issued o d))))
    = if is_undefined (getp d p) then 0 else occurrences p P).
  { intros p. rewrite Hcalls. unfold count_calls.
    rewrite (has_type_calls _ p (present d P)) by apply property_call_type.
    apply occurrences_present. }
  split_and!.
  - exact Hcalls.
  - exact Hcount.
  - intros p Hnd Hin Hp. rewrite Hcount, Hp. by apply occurrences_NoDup.
  - intros p [Hnot|Hp]; rewrite Hcount.
    + rewrite occurrences_not_listed by done. by destruct (is_undefined (getp d p)).
    + by rewrite Hp.
  - intros evs st Hst. apply (good_calls _ _ _ _ _ _ _ _ _ _ (Hgood evs st Hst)).
Qed.

Lemma C1_witness :
  ∃ w0 inv0,
    book_update 5%positive shelf = (w0, Return inv0)
    ∧ property_calls (issued_by shelf w0)
      = [CreateProperty (VStr "cuid-tenant") (VStr "Genre") (VStr "cuix")
           (VStr "Fantasy") (VNum 4)].
Proof.
  destruct (C1_createProperty_per_present_name book book_update 5%positive
              elantris shelf) as (w0 & inv0 & Hrun & Hcalls & _);
    [reflexivity | reflexivity | reflexivity |].
  exists w0, inv0. split; [exact Hrun|]. rewrite Hcalls. reflexivity.
Defined.

Lemma run_snoc evs ev st st1 st' :
  run evs st = Some st1 → step ev st1 = Some st' →
  run (evs ++ [ev]) st = Some st'.
Proof.
  intros Hrun Hstep. rewrite run_app, Hrun. cbn. by rewrite Hstep.
Qed.

Lemma run_trans evs1 evs2 st st1 st2 :
  run evs1 st = Some st1 → run evs2 st1 = Some st2 →
  run (evs1 ++ evs2) st = Some st2.
Proof. intros H1 H2. by rewrite run_app, H1. Qed.

(** In a good state, the object of an edge whose promise is fulfilled
    holds the edge's name and the fulfilment value as its [data]. *)
Lemma good_captured d docl nd np es ls h0 cs evs st k q data edge e :
  good d docl nd np es ls h0 cs evs st →
  promises st.2 !! S (np + k) = Some q → state q = Fulfilled data →
  ls !! k = Some edge → es !! k = Some e →
  heap st.1 !! edge = Some (captured_edge d (e, data)).
Proof.
  intros G Hq Hs Hl He.
  destruct (good_slots _ _ _ _ _ _ _ _ _ _ G _ _ Hq) as (_ & _ & _ & _ & Hedge).
  destruct (Hedge k eq_refl) as (l' & e' & Hl' & He' & _ & Hcell).
  rewrite Hl in Hl'. injection Hl' as <-.
  rewrite He in He'. injection He' as <-.
  rewrite Hcell, Hs. reflexivity.
Qed.

(** C2. With recognized edge names [E], a document with a node id gets
    exactly the [createEdge] calls of the names of [E] that are not
    undefined in it, each with the configured tenant and maxGSIK, the node
    id, the name as type and the document's value as target.  The promise
    of each such call starts pending, and as long as it is pending the
    driver can fulfil it: when it does so with a response, whose [Item] is
    the object [item], the value of [item.Data] is stored as [data] of
    that edge's element of [edgeMap], where it stays; in general what is
    stored is what reading [response.Item.Data] returns. *)
Theorem C2_createEdge_per_present_name o f docl d w :
  create o = Return f →
  heap w !! docl = Some d →
  is_undefined (getp d "id") = false →
  let E := default [] (edges o) in
  let np := length (present d (default [] (properties o))) in
  ∃ w0 inv0,
    f docl w = (w0, Return inv0)
    ∧ edge_calls (issued_by w w0)
      = (λ e, CreateEdge (tenant o) (VStr e) (getp d "id") (getp d e) (maxGSIK o))
          <$> filter (λ e, ¬ is_undefined (getp d e)) E
    ∧ (∀ e, count_calls e (edge_calls (issued_by w w0))
            = if is_undefined (getp d e) then 0 else occurrences e E)
    ∧ length (edgeMap inv0) = length (present d E)
    ∧ ∀ k e, present d E !! k = Some e →
        ∃ edge,
          edgeMap inv0 !! k = Some edge
          ∧ issued_by w w0 !! (np + k)
            = Some (CreateEdge (tenant o) (VStr e) (getp d "id") (getp d e) (maxGSIK o))
          ∧ promises inv0 !! S (np + k)
            = Some (Promise (CaptureData edge) Pending false)
          ∧ (∀ evs st p fields item,
               run evs (w0, inv0) = Some st →
               promises st.2 !! S (np + k) = Some p → state p = Pending →
               fields !! "Item" = Some (VObj item) →
               ∃ st',
                 step (Settle (S (np + k)) (Resolve (VObj fields))) st = Some st'
                 ∧ ∀ evs' st'', run evs' st' = Some st'' →
                     getp (deref (heap st''.1) edge) "type" = VStr e
                     ∧ getp (deref (heap st''.1) edge) "data" = getp item "Data")
          ∧ ∀ evs st response data st',
              run evs (w0, inv0) = Some st →
              step (Settle (S (np + k)) (Resolve response)) st = Some st' →
              item_data response = Return data →
              ∀ evs' st'', run evs' st' = Some st'' →
                getp (deref (heap st''.1) edge) "type" = VStr e
                ∧ getp (deref (heap st''.1) edge) "data" = data.
Proof.
  intros Hcreate Hdoc Hid E np.
  destruct (call_started o f docl d w Hcreate Hdoc Hid)
    as (ls & h' & Hrun & Hnd & Hfresh & Hlen & Hall & Hpres & Hgood).
  cbn zeta in Hrun, Hgood. cbn [fst snd] in Hrun.
  fold np in Hrun, Hgood. fold E in Hlen, Hall, Hgood.
  eexists _, _. split; [exact Hrun|].
  assert (Hissued : issued_by w (World h' (calls w ++ issued o d)) = issued o d).
  { unfold issued_by. cbn [calls]. apply drop_app_length. }
  rewrite Hissued.
  assert (Hcalls : edge_calls (issued o d)
                   = edge_call (tenant o) (getp d "id") (maxGSIK o) d
                       <$> present d E) by apply edge_calls_issued.
  split_and!.
  - exact Hcalls.
  - intros e. rewrite Hcalls. unfold count_calls.
    rewrite (has_type_calls _ e (present d E)) by apply edge_call_type.
    apply occurrences_present.
  - exact Hlen.
  - intros k e He. cbn [edgeMap promises].
    destruct (lookup_lt_is_Some_2 ls k) as [edge Hedge].
    { rewrite Hlen. eapply lookup_lt_Some; eauto. }
    assert (Hstays : ∀ evs st response data st',
              run evs (World h' (calls w ++ issued o d),
                       Invocation docl (getp d "id") ls
                         (resolved VUndefined
                            :: replicate np property_promise ++ (edge_promise <$> ls))
                         Pending) = Some st →
              step (Settle (S (np + k)) (Resolve response)) st = Some st' →
              item_data response = Return data →
              ∀ evs' st'', run evs' st' = Some st'' →
                getp (deref (heap st''.1) edge) "type" = VStr e
                ∧ getp (deref (heap st''.1) edge) "data" = data).
    { intros evs st response data st' Hst Hstep Hdata evs' st'' Hst''.
      destruct (settle_state _ _ _ _ Hstep) as (p & Hp & Hs & Hp' & _).
      pose proof (Hgood evs st Hst) as G.
      destruct (good_slots _ _ _ _ _ _ _ _ _ _ G _ _ Hp) as (_ & _ & _ & _ & Hslot).
      destruct (Hslot k eq_refl) as (l' & e' & Hl' & _ & Hh & _).
      rewrite Hedge in Hl'. injection Hl' as <-.
      rewrite Hh in Hp'. cbn [settlement delivered] in Hp'. rewrite Hdata in Hp'.
      destruct (run_state_stable _ _ _ _ _ Hst'' Hp') as (q & Hq & Hsq & _);
        [done|].
      cbn [state] in Hsq.
      assert (G'' : good d docl (getp d "id") np (present d E) ls (heap w)
                      (calls w ++ issued o d)
                      ((evs ++ [Settle (S (np + k)) (Resolve response)]) ++ evs') st'').
      { apply Hgood. eapply run_trans; [|exact Hst'']. by eapply run_snoc. }
      pose proof (good_captured _ _ _ _ _ _ _ _ _ _ _ _ _ _ _ G'' Hq Hsq Hedge He)
        as Hcell.
      rewrite (deref_lookup _ _ _ Hcell).
      by rewrite captured_edge_type, captured_edge_data. }
    exists edge. split_and!.
    + exact Hedge.
    + unfold issued. rewrite lookup_app_r; rewrite length_fmap; [|fold np; lia].
      fold np. replace (np + k - np) with k by lia.
      rewrite list_lookup_fmap. fold E. by rewrite He.
    + change ((replicate np property_promise ++ (edge_promise <$> ls)) !! (np + k)
              = Some (Promise (CaptureData edge) Pending false)).
      rewrite lookup_app_r; rewrite length_replicate; [|lia].
      replace (np + k - np) with k by lia.
      rewrite list_lookup_fmap. by rewrite Hedge.
    + intros evs st p fields item Hst Hp Hs Hitem.
      destruct (settle_enabled (S (np + k)) (Resolve (VObj fields)) st p Hp Hs)
        as [st' Hstep].
      exists st'. split; [exact Hstep|].
      apply (Hstays evs st (VObj fields) (getp item "Data") st' Hst Hstep).
      by apply item_data_object.
    + exact Hstays.
Qed.

Lemma C2_witness :
  ∃ w0 inv0,
    book_update 5%positive shelf = (w0, Return inv0)
    ∧ edge_calls (issued_by shelf w0)
      = [CreateEdge (VStr "cuid-tenant") (VStr "Author") (VStr "cuix")
           (VStr "cuiv") (VNum 4)]
    ∧ ∃ edge st',
        edgeMap inv0 !! 0 = Some edge
        ∧ step (Settle 2 (Resolve sanderson)) (w0, inv0) = Some st'
        ∧ getp (deref (heap st'.1) edge) "data" = VStr "Brandon Sanderson".
Proof.
  destruct (C2_createEdge_per_present_name book book_update 5%positive
              elantris shelf) as (w0 & inv0 & Hrun & Hcalls & _ & _ & Hedge);
    [reflexivity | reflexivity | reflexivity |].
  exists w0, inv0. split; [exact Hrun|]. split; [rewrite Hcalls; reflexivity|].
  destruct (Hedge 0 "Author" eq_refl) as (edge & Hl & _ & Hp & Hcap & _).
  assert (Hitem :
    ({[ "Item" := VObj {[ "Data" := VStr "Brandon Sanderson" ]} ]}
       : gmap string value) !! "Item"
    = Some (VObj {[ "Data" := VStr "Brandon Sanderson" ]}))
    by (vm_compute; reflexivity).
  destruct (Hcap [] (w0, inv0) _ _ _ eq_refl Hp eq_refl Hitem)
    as (st' & Hstep & Hdata).
  exists edge, st'. split; [exact Hl|]. split; [exact Hstep|].
  exact (proj2 (Hdata [] st' eq_refl)).
Defined.

(** C3 as stated fails for a document that has an own key [__proto__],
    as [JSON.parse] makes one: [Object.assign] does not copy that key, so
    it does not keep its value in the result, though it is no [@<edge>]
    key. *)
Lemma C3_counterexample :
  ¬ (∀ o f docl d w w0 inv0 evs st result key v,
       create o = Return f → heap w !! docl = Some d →
       f docl w = (w0, Return inv0) →
       run evs (w0, inv0) = Some st →
       returned st.2 = Fulfilled result →
       d !! key = Some v →
       (∀ e, e ∈ present d (default [] (edges o)) → key ≠ "@" +:+ e) →
       getp (deref (heap st.1) result) key = v).
Proof.
  intros H.
  assert (Hfact :
    (λ st, match returned st.2 with
           | Fulfilled result =>
               is_undefined (getp (deref (heap st.1) result) "__proto__")
           | _ => false
           end)
      <$> (started book_update 5%positive inbox ≫= run [Join 0])
    = Some true) by (vm_compute; reflexivity).
  unfold started in Hfact.
  destruct (book_update 5%positive inbox) as [w0 [inv0|e]] eqn:Hrun; [|done].
  cbn [mbind option_bind] in Hfact.
  destruct (run [Join 0] (w0, inv0)) as [st|] eqn:Hst; [|done].
  cbn [fmap option_fmap option_map] in Hfact.
  destruct (returned st.2) as [|result|] eqn:Hret; [done| |done].
  assert (Hkey : parsed !! "__proto__" = Some (VStr "Book"))
    by (vm_compute; reflexivity).
  assert (HE : present parsed (default [] (edges book)) = [])
    by (vm_compute; reflexivity).
  rewrite (H book book_update 5%positive parsed inbox w0 inv0 [Join 0] st
             result "__proto__" (VStr "Book") eq_refl eq_refl Hrun Hst Hret Hkey)
    in Hfact; [done|].
  rewrite HE. intros e He. by apply elem_of_nil in He.
Qed.

(** C3, amended.  When the returned promise is fulfilled, its value is a
    fresh object that equals [{id: node}] with the document merged over it
    by [Object.assign] and then one [@<edge>] entry per edge name present
    in the document, whose value is the [Item.Data] of the response the
    driver fulfilled that edge's promise with.  Every key of the document
    other than [__proto__] keeps its value unless it is such an [@<edge>]
    key; the result has no own key [__proto__]. *)
Theorem C3_result_is_document_with_edge_data o f docl d w :
  create o = Return f →
  heap w !! docl = Some d →
  is_undefined (getp d "id") = false →
  let E := filter (λ e, ¬ is_undefined (getp d e)) (default [] (edges o)) in
  let np := length (present d (default [] (properties o))) in
  ∃ w0 inv0,
    f docl w = (w0, Return inv0)
    ∧ ∀ evs st result,
        run evs (w0, inv0) = Some st →
        returned st.2 = Fulfilled result →
        ∃ datas,
          length datas = length E
          ∧ (∀ k data, datas !! k = Some data →
               ∃ response, Settle (S (np + k)) (Resolve response) ∈ evs
                           ∧ item_data response = Return data
                           ∧ ∀ fields item,
                               response = VObj fields →
                               fields !! "Item" = Some (VObj item) →
                               data = getp item "Data")
          ∧ heap st.1 !! result
            = Some (object_assign {[ "id" := getp d "id" ]}
                      [d; edge_entries ∅ (zip E datas)])
          ∧ (∀ key v, d !! key = Some v → key ≠ "__proto__" →
               (∀ e, e ∈ E → key ≠ "@" +:+ e) →
               getp (deref (heap st.1) result) key = v)
          ∧ deref (heap st.1) result !! "__proto__" = None
          ∧ (NoDup E → ∀ k e data, E !! k = Some e → datas !! k = Some data →
               getp (deref (heap st.1) result) ("@" +:+ e) = data).
Proof.
  intros Hcreate Hdoc Hid E np.
  destruct (call_started o f docl d w Hcreate Hdoc Hid)
    as (ls & h' & Hrun & Hnd & Hfresh & Hlen & Hall & Hpres & Hgood).
  cbn zeta in Hrun, Hgood. cbn [fst snd] in Hrun.
  fold np in Hrun, Hgood. fold (present d (default [] (edges o))) in E.
  fold E in Hlen, Hall, Hgood.
  eexists _, _. split; [exact Hrun|].
  intros evs st result Hst Hret.
  pose proof (Hgood evs st Hst) as G.
  destruct (fulfilled_datas _ _ _ _ _ _ _ _ _ _ _ G Hret) as (Hl & Hfrom & Hcell).
  set (datas := fulfilled_value <$> drop (S np) (promises st.2)) in *.
  assert (Hdatas : length datas = length E) by congruence.
  assert (Hfst : (zip E datas).*1 = E) by (apply fst_zip; lia).
  fold (result_object (getp d "id") d (zip E datas)).
  rewrite (deref_lookup _ _ _ Hcell).
  exists datas. split_and!.
  - exact Hdatas.
  - intros k data Hk. destruct (Hfrom k data Hk) as (response & Hin & Hdata).
    exists response. split_and!; [done|done|].
    intros fields item -> Hitem.
    rewrite (item_data_object _ _ Hitem) in Hdata. by injection Hdata.
  - exact Hcell.
  - intros key v Hkey Hproto Hother. unfold getp.
    rewrite (result_object_keeps _ _ _ key v); [done|done|done|].
    by rewrite Hfst.
  - apply result_object_proto.
  - intros HndE k e data He Hk. unfold getp.
    rewrite (result_object_at _ _ _ k e data); [done|by rewrite Hfst|].
    apply lookup_zip_with_Some. by exists e, data.
Qed.

Lemma C3_witness :
  ∃ st result,
    (started book_update 5%positive shelf ≫= run book_run) = Some st
    ∧ returned st.2 = Fulfilled result
    ∧ getp (deref (heap st.1) result) "Name" = VStr "Elantris"
    ∧ getp (deref (heap st.1) result) "@Author" = VStr "Brandon Sanderson".
Proof.
  destruct (C3_result_is_document_with_edge_data book book_update 5%positive
              elantris shelf) as (w0 & inv0 & Hrun & H);
    [reflexivity | reflexivity | reflexivity |].
  destruct book_run_fulfilled as (st0 & st & result & Hst0 & Hst & Hret).
  unfold started in Hst0 |- *. rewrite Hrun in Hst0 |- *.
  injection Hst0 as <-. cbn [mbind option_bind].
  exists st, result. split; [exact Hst|]. split; [exact Hret|].
  destruct (H book_run st result Hst Hret)
    as (datas & Hlen & Hfrom & _ & Hkeep & _ & Hat).
  assert (HE : filter (λ e, ¬ is_undefined (getp elantris e))
                 (default [] (edges book)) = ["Author"])
    by (vm_compute; reflexivity).
  assert (HP : length (present elantris (default [] (properties book))) = 1)
    by (vm_compute; reflexivity).
  rewrite HE in Hlen, Hkeep, Hat. rewrite HP in Hfrom.
  split.
  - apply Hkeep; [reflexivity|done|]. intros e _. cbn. discriminate.
  - destruct datas as [|data [|? ?]]; [done| |done].
    destruct (Hfrom 0 data eq_refl) as (response & Hin & _ & Hdata).
    transitivity data;
      [exact (Hat (NoDup_singleton _) 0 "Author" data eq_refl eq_refl)|].
    unfold book_run in Hin. rewrite !elem_of_cons in Hin.
    destruct Hin as [Hin|[Hin|[Hin|[Hin|[Hin|Hin%elem_of_nil]]]]];
      try discriminate Hin; [|done].
    injection Hin as ->.
    assert (Hitem :
      ({[ "Item" := VObj {[ "Data" := VStr "Brandon Sanderson" ]} ]}
         : gmap string value) !! "Item"
      = Some (VObj {[ "Data" := VStr "Brandon Sanderson" ]}))
      by (vm_compute; reflexivity).
    rewrite (Hdata _ _ eq_refl Hitem). vm_compute. reflexivity.
Defined.

(** C4 as stated fails on both counts: a document that has the key field
    [Name] is refused for want of [id]; and the node of the calls for a
    document that has both is its [id], not the value of its key field. *)
Lemma C4_counterexample :
  ¬ (∀ o f k docl d w,
       create o = Return f → key o = VStr k → heap w !! docl = Some d →
       ((f docl w).2 = Throw (Error "Node is undefined")
        ↔ is_undefined (getp d k) = true))
  ∧ ¬ (∀ o f k docl d w w0 inv0,
         create o = Return f → key o = VStr k → heap w !! docl = Some d →
         is_undefined (getp d k) = false →
         f docl w = (w0, Return inv0) →
         Forall (λ c, call_node c = getp d k) (issued_by w w0)).
Proof.
  split.
  - intros H.
    destruct (H book book_update "Name" 5%positive draft desk
                eq_refl eq_refl eq_refl) as [H1 _].
    specialize (H1 eq_refl). discriminate H1.
  - intros H.
    pose proof (H book book_update "Name" 5%positive elantris shelf _ _
                  eq_refl eq_refl eq_refl eq_refl eq_refl) as Hall.
    vm_compute in Hall. apply Forall_cons in Hall as [Hnode _].
    discriminate Hnode.
Qed.

Lemma Forall_call_node t n m d (ps es : list string) :
  Forall (λ c, call_node c = n)
    ((property_call t n m d <$> ps) ++ (edge_call t n m d <$> es)).
Proof.
  apply Forall_app. split; apply Forall_fmap, Forall_forall; by intros.
Qed.

(** C4, amended.  Whatever the configured key field, the call fails, with
    "Node is undefined" and with nothing else, exactly when the document's
    [id] is undefined; when [id] is there, its value is the node of every
    call issued for the document. *)
Theorem C4_node_is_the_id_field o f docl d w :
  create o = Return f →
  heap w !! docl = Some d →
  ((f docl w).2 = Throw (Error "Node is undefined")
   ↔ is_undefined (getp d "id") = true)
  ∧ (∀ e, (f docl w).2 = Throw e → e = Error "Node is undefined")
  ∧ (is_undefined (getp d "id") = false →
     ∃ w0 inv0,
       f docl w = (w0, Return inv0)
       ∧ node inv0 = getp d "id"
       ∧ Forall (λ c, call_node c = getp d "id") (issued_by w w0)
       ∧ ∀ evs st, run evs (w0, inv0) = Some st → calls st.1 = calls w0).
Proof.
  intros Hcreate Hdoc.
  pose proof (deref_lookup _ _ _ Hdoc) as Hd.
  destruct (is_undefined (getp d "id")) eqn:Hid.
  - destruct (create_Return _ _ Hcreate) as (db0 & _ & _ & _ & _ & ->).
    rewrite update_throws by (by rewrite Hd). cbn [snd].
    split_and!; [done|by intros e [= <-]|done].
  - destruct (call_started o f docl d w Hcreate Hdoc Hid)
      as (ls & h' & Hrun & _ & _ & _ & _ & _ & Hgood).
    cbn zeta in Hrun, Hgood. cbn [fst snd] in Hrun. rewrite Hrun. cbn [snd].
    split_and!; [done|done|]. intros _. eexists _, _. split_and!; try done.
    + unfold issued_by. cbn [calls]. rewrite drop_app_length.
      apply Forall_call_node.
    + intros evs st Hst.
      apply (good_calls _ _ _ _ _ _ _ _ _ _ (Hgood evs st Hst)).
Qed.

Lemma C4_witness :
  ∃ w0 inv0,
    book_update 5%positive shelf = (w0, Return inv0)
    ∧ node inv0 = VStr "cuix"
    ∧ Forall (λ c, call_node c = VStr "cuix") (issued_by shelf w0).
Proof.
  destruct (C4_node_is_the_id_field book book_update 5%positive elantris shelf)
    as (_ & _ & H); [reflexivity | reflexivity |].
  destruct (H eq_refl) as (w0 & inv0 & Hrun & Hnode & Hall & _).
  by exists w0, inv0.
Defined.

(** C5. Configuration throws exactly when [db], [type], [key] or
    [maxGSIK] is undefined, and the message names an input that is
    missing (the first in that order); with all four defined it returns
    the update function. *)
Theorem C5_create_validates o :
  ((∃ e, create o = Throw e)
   ↔ db o = None ∨ is_undefined (type o) = true
     ∨ is_undefined (key o) = true ∨ is_undefined (maxGSIK o) = true)
  ∧ (∀ e, create o = Throw e →
       (e = Error "DB driver is undefined" ∧ db o = None)
       ∨ (e = Error "Type is undefined" ∧ is_undefined (type o) = true)
       ∨ (e = Error "Key is undefined" ∧ is_undefined (key o) = true)
       ∨ (e = Error "Max GSIK is undefined" ∧ is_undefined (maxGSIK o) = true))
  ∧ (∀ db0, db o = Some db0 → is_undefined (type o) = false →
       is_undefined (key o) = false → is_undefined (maxGSIK o) = false →
       create o = Return (update db0 (tenant o) (maxGSIK o)
                            (default [] (properties o)) (default [] (edges o)))).
Proof.
  unfold create.
  destruct (db o) as [db0|], (is_undefined (type o)),
    (is_undefined (key o)), (is_undefined (maxGSIK o));
    (split_and!; [split| |]); naive_solver.
Qed.

(** C6. A validation failure is a [Throw] of the synchronous code, not a
    rejection of the returned promise.  [create] does not touch the world
    at all, so a failure at configuration time is raised with no store
    call made; the returned function throws only "Node is undefined", and
    hands the world back as it found it: no call issued, nothing
    allocated.  When nothing is thrown, the returned promise starts
    pending. *)
Theorem C6_validation_before_any_store_call o docl w :
  match create o with
  | Throw e =>
      e ∈ [Error "DB driver is undefined"; Error "Type is undefined";
           Error "Key is undefined"; Error "Max GSIK is undefined"]
  | Return f =>
      match f docl w with
      | (w', Throw e) =>
          e = Error "Node is undefined" ∧ w' = w
          ∧ is_undefined (getp (deref (heap w) docl) "id") = true
      | (w', Return inv0) =>
          is_undefined (getp (deref (heap w) docl) "id") = false
          ∧ returned inv0 = Pending
      end
  end.
Proof.
  destruct (create o) as [f|e] eqn:Hcreate.
  - destruct (create_Return _ _ Hcreate) as (db0 & _ & _ & _ & _ & ->).
    destruct (is_undefined (getp (deref (heap w) docl) "id")) eqn:Hid.
    + by rewrite update_throws.
    + destruct (update_started db0 (tenant o) (maxGSIK o)
                  (default [] (properties o)) (default [] (edges o)) docl w Hid)
        as (ls & h' & Hrun & _).
      by rewrite Hrun.
  - unfold create in Hcreate.
    destruct (db o); [|injection Hcreate as <-; set_solver].
    destruct (is_undefined (type o)); [injection Hcreate as <-; set_solver|].
    destruct (is_undefined (key o)); [injection Hcreate as <-; set_solver|].
    destruct (is_undefined (maxGSIK o)); [injection Hcreate as <-; set_solver|].
    discriminate Hcreate.
Qed.

(** A driver rejection that has happened shows in the state of its
    element of [promises], for good. *)
Lemma rejected_by_driver evs st0 st i e :
  run evs st0 = Some st → Settle i (Reject e) ∈ evs →
  ∃ p, promises st.2 !! i = Some p ∧ state p = Rejected e.
Proof.
  intros Hrun Hin.
  apply list_elem_of_split in Hin as (evs1 & evs2 & ->).
  rewrite run_app in Hrun.
  destruct (run evs1 st0) as [st1|] eqn:H1; [|done].
  cbn [mbind option_bind run] in Hrun.
  destruct (step (Settle i (Reject e)) st1) as [st2|] eqn:H2; [|done].
  cbn [mbind option_bind] in Hrun.
  destruct (settle_state _ _ _ _ H2) as (p & _ & _ & Hp & _).
  destruct (run_state_stable _ _ _ _ _ Hrun Hp) as (p' & Hp' & Hs' & _);
    [done|].
  exists p'. by split.
Qed.

(** When nothing more can happen, the returned promise is settled. *)
Lemma quiescent_settled d docl nd np es ls h0 cs evs st :
  good d docl nd np es ls h0 cs evs st →
  (∀ ev, step ev st = None) → is_pending (returned st.2) = false.
Proof.
  intros G Hnone.
  pose proof (good_returned _ _ _ _ _ _ _ _ _ _ G) as Gr.
  destruct (returned st.2) as [|lr|e]; [|done|done].
  destruct Gr as [Hnot Hjf].
  rewrite all_joined_intro in Hnot; [done|].
  intros i p Hp.
  assert (Hs : is_pending (state p) = false).
  { destruct (state p) eqn:Hs; [|done|done].
    destruct (settle_enabled i (Reject (Error "")) st p Hp Hs) as [st' Hst'].
    by rewrite Hnone in Hst'. }
  assert (Hj : joined p = true).
  { destruct (joined p) eqn:Hj; [done|].
    destruct (join_enabled i st p Hp Hs Hj) as [st' Hst'].
    by rewrite Hnone in Hst'. }
  split; [by eapply Hjf|done].
Qed.

(** With an element rejected, the returned promise is not fulfilled. *)
Lemma rejected_not_fulfilled d docl nd np es ls h0 cs evs st i p e :
  good d docl nd np es ls h0 cs evs st →
  promises st.2 !! i = Some p → state p = Rejected e →
  is_fulfilled (returned st.2) = false.
Proof.
  intros G Hp Hs.
  pose proof (good_returned _ _ _ _ _ _ _ _ _ _ G) as Gr.
  destruct (returned st.2) as [|lr|e0]; [done| |done].
  destruct Gr as [Hall _].
  destruct (all_joined_lookup _ _ _ Hall Hp) as [Hf _]. by rewrite Hs in Hf.
Qed.

(** As long as no rejected element has been taken in, and one element is
    rejected, the returned promise is pending. *)
Lemma pending_before_first_rejection d docl nd np es ls h0 cs evs st i p e :
  good d docl nd np es ls h0 cs evs st →
  promises st.2 !! i = Some p → state p = Rejected e →
  none_rejected_yet (promises st.2) = true →
  returned st.2 = Pending ∧ joined p = false.
Proof.
  intros G Hp Hs Hnone.
  assert (Hj : joined p = false).
  { destruct (joined p) eqn:Hj; [|done].
    pose proof (none_rejected_yet_lookup _ _ _ Hnone Hp Hj) as Hf.
    by rewrite Hs in Hf. }
  split; [|exact Hj].
  pose proof (rejected_not_fulfilled _ _ _ _ _ _ _ _ _ _ _ _ _ G Hp Hs) as Hnf.
  pose proof (good_returned _ _ _ _ _ _ _ _ _ _ G) as Gr.
  destruct (returned st.2) as [|lr|e0]; [done|done|].
  destruct Gr as (j & q & Hq & Hsq & Hjq).
  pose proof (none_rejected_yet_lookup _ _ _ Hnone Hq Hjq) as Hf.
  by rewrite Hsq in Hf.
Qed.

(** The error of a rejected returned promise is the error of a rejected
    element that was taken in: the reason of a driver rejection, or what
    reading [Item.Data] off the response to an edge write threw. *)
Lemma rejection_origin d docl nd np es ls h0 cs evs st e :
  good d docl nd np es ls h0 cs evs st →
  returned st.2 = Rejected e →
  ∃ i, Settle i (Reject e) ∈ evs
       ∨ ∃ k response message,
           i = S (np + k)
           ∧ Settle i (Resolve response) ∈ evs
           ∧ without_item response = true
           ∧ e = TypeError message.
Proof.
  intros G Hret.
  pose proof (good_returned _ _ _ _ _ _ _ _ _ _ G) as Gr.
  rewrite Hret in Gr. destruct Gr as (i & q & Hq & Hsq & _).
  destruct (good_slots _ _ _ _ _ _ _ _ _ _ G _ _ Hq) as (_ & Hby & _ & Hdirect & _).
  unfold settled_by in Hby. rewrite Hsq in Hby. exists i.
  destruct Hby as [Hby|(r & Hr & Hdel)]; [by left|right].
  destruct (on_fulfil q) as [|l] eqn:Hh; [done|].
  cbn [delivered] in Hdel.
  destruct (item_data_throws _ _ Hdel) as [Hno [message ->]].
  assert (Hi : ¬ i < S np).
  { intros Hlt. specialize (Hdirect Hlt). congruence. }
  exists (i - S np), r, message. split_and!; [lia|done|done|done].
Qed.

(** C7 as stated fails when two writes reject: the edge write rejects
    with [timed_out] and [Promise.all] takes that rejection in, yet the
    returned promise is rejected with [throttled], the error of the
    property write that failed before. *)
Lemma C7_counterexample :
  ¬ (∀ o f docl d w w0 inv0 evs st i e,
       create o = Return f → heap w !! docl = Some d →
       f docl w = (w0, Return inv0) →
       run evs (w0, inv0) = Some st →
       Settle i (Reject e) ∈ evs → Join i ∈ evs →
       returned st.2 = Rejected e).
Proof.
  intros H.
  pose proof (H book book_update 5%positive elantris shelf _ _
                [Settle 1 (Reject throttled); Settle 2 (Reject timed_out);
                 Join 1; Join 2]
                _ 2 timed_out eq_refl eq_refl eq_refl eq_refl) as Hret.
  assert (Hrej : returned
            (World {[ 5%positive := elantris; 6%positive := edge_object elantris "Author" ]} (calls shelf ++ issued book elantris),
             Invocation 5%positive (VStr "cuix") [6%positive]
               [Promise Direct (Fulfilled VUndefined) false;
                Promise Direct (Rejected throttled) true;
                Promise (CaptureData 6%positive) (Rejected timed_out) true]
               (Rejected throttled)).2 = Rejected timed_out).
  { apply Hret; set_solver. }
  discriminate Hrej.
Qed.

(** C7, amended.  An element of [promises] is rejected when its store
    call rejects, with the error of the call, and, for an edge write, when
    the response has no [Item], with the [TypeError] of reading
    [response.Item.Data].  When a store call has rejected, the returned
    promise cannot be fulfilled any more, and it is rejected by the time
    nothing more can happen.  The first rejected element that
    [Promise.all] takes in rejects the returned promise with its error,
    unchanged; the promise keeps that error whatever happens later, and
    its error is always that of a rejected element.  No event adds a store
    call, so nothing is retried. *)
Theorem C7_first_failure_rejects o f docl d w :
  create o = Return f →
  heap w !! docl = Some d →
  is_undefined (getp d "id") = false →
  let np := length (present d (default [] (properties o))) in
  ∃ w0 inv0,
    f docl w = (w0, Return inv0)
    ∧ ∀ evs st,
        run evs (w0, inv0) = Some st →
        calls st.1 = calls w0
        ∧ (∀ i e, Settle i (Reject e) ∈ evs →
             (∃ p, promises st.2 !! i = Some p ∧ state p = Rejected e)
             ∧ is_fulfilled (returned st.2) = false
             ∧ ((∀ ev, step ev st = None) → ∃ e', returned st.2 = Rejected e'))
        ∧ (∀ i p e,
             promises st.2 !! i = Some p → state p = Rejected e →
             none_rejected_yet (promises st.2) = true →
             ∃ st', step (Join i) st = Some st' ∧ returned st'.2 = Rejected e)
        ∧ (∀ e, returned st.2 = Rejected e →
             (∀ evs' st', run evs' st = Some st' → returned st'.2 = Rejected e)
             ∧ ∃ i, Settle i (Reject e) ∈ evs
                    ∨ ∃ k response message,
                        i = S (np + k)
                        ∧ Settle i (Resolve response) ∈ evs
                        ∧ without_item response = true
                        ∧ e = TypeError message).
Proof.
  intros Hcreate Hdoc Hid np.
  destruct (call_started o f docl d w Hcreate Hdoc Hid)
    as (ls & h' & Hrun & _ & _ & _ & _ & _ & Hgood).
  cbn zeta in Hrun, Hgood. cbn [fst snd] in Hrun. fold np in Hrun, Hgood.
  eexists _, _. split; [exact Hrun|].
  intros evs st Hst. pose proof (Hgood _ _ Hst) as G.
  split_and!.
  - apply (good_calls _ _ _ _ _ _ _ _ _ _ G).
  - intros i e Hin.
    destruct (rejected_by_driver _ _ _ _ _ Hst Hin) as (p & Hp & Hs).
    pose proof (rejected_not_fulfilled _ _ _ _ _ _ _ _ _ _ _ _ _ G Hp Hs) as Hnf.
    split_and!; [by eauto|exact Hnf|].
    intros Hnone.
    pose proof (quiescent_settled _ _ _ _ _ _ _ _ _ _ G Hnone) as Hpend.
    destruct (returned st.2) as [|lr|e']; [done|done|by eauto].
  - intros i p e Hp Hs Hnone.
    destruct (pending_before_first_rejection _ _ _ _ _ _ _ _ _ _ _ _ _
                G Hp Hs Hnone) as [Hret Hj].
    destruct (join_enabled i st p Hp) as [st' Hstep]; [by rewrite Hs|exact Hj|].
    exists st'. split; [exact Hstep|].
    destruct (join_state _ _ _ Hstep) as (p' & Hp' & _ & _ & _ & _ & Hreject).
    rewrite Hp in Hp'. injection Hp' as <-.
    apply (Hreject e Hs). by rewrite Hret.
  - intros e Hret. split.
    + intros evs' st' Hst'.
      rewrite (run_returned_stable _ _ _ Hst'); [done|by rewrite Hret].
    + by eapply rejection_origin.
Qed.

Lemma C7_witness :
  ∃ st1 st2,
    (started book_update 5%positive shelf ≫= run [Settle 2 (Reject timed_out)])
    = Some st1
    ∧ run [Join 2; Settle 1 (Reject throttled); Join 1] st1 = Some st2
    ∧ returned st2.2 = Rejected timed_out.
Proof.
  destruct (C7_first_failure_rejects book book_update 5%positive elantris shelf)
    as (w0 & inv0 & Hrun & H); [reflexivity | reflexivity | reflexivity |].
  assert (Hfact :
    (λ _, true) <$>
      (started book_update 5%positive shelf ≫= λ st0,
       run [Settle 2 (Reject timed_out)] st0 ≫= λ st1,
       if none_rejected_yet (promises st1.2)
       then run [Join 2; Settle 1 (Reject throttled); Join 1] st1 else None)
    = Some true) by (vm_compute; reflexivity).
  unfold started in *. rewrite Hrun in Hfact |- *.
  cbn [mbind option_bind] in Hfact |- *.
  destruct (run [Settle 2 (Reject timed_out)] (w0, inv0)) as [st1|] eqn:Hst1;
    [|done].
  cbn [mbind option_bind] in Hfact.
  destruct (none_rejected_yet (promises st1.2)) eqn:Hnone; [|done].
  destruct (run [Join 2; Settle 1 (Reject throttled); Join 1] st1)
    as [st2|] eqn:Hst2; [|done].
  exists st1, st2. split; [done|]. split; [done|].
  destruct (H _ _ Hst1) as (_ & Hrej & Hfirst & _).
  destruct (Hrej 2 timed_out) as ((p & Hp & Hs) & _);
    [apply elem_of_cons; by left|].
  destruct (Hfirst 2 p timed_out Hp Hs Hnone) as (st' & Hstep & Hret).
  change (step (Join 2) st1 ≫= run [Settle 1 (Reject throttled); Join 1]
          = Some st2) in Hst2.
  rewrite Hstep in Hst2. cbn [mbind option_bind] in Hst2.
  destruct (H _ _ (run_snoc _ _ _ _ _ Hst1 Hstep)) as (_ & _ & _ & Hkeep).
  exact (proj1 (Hkeep timed_out Hret) _ _ Hst2).
Defined.

(** C8. When the synchronous part returns, every store call of the
    invocation is in the trace and every promise the driver handed out is
    still pending: no call waits for another's result.  No event adds a
    call; and the returned promise is fulfilled only in a state where
    every element of [promises] is fulfilled, each write's by a response
    of the driver. *)
Theorem C8_issued_together_awaited_together o f docl d w :
  create o = Return f →
  heap w !! docl = Some d →
  is_undefined (getp d "id") = false →
  let P := filter (λ p, ¬ is_undefined (getp d p)) (default [] (properties o)) in
  let E := filter (λ e, ¬ is_undefined (getp d e)) (default [] (edges o)) in
  ∃ w0 inv0,
    f docl w = (w0, Return inv0)
    ∧ issued_by w w0
      = ((λ p, CreateProperty (tenant o) (VStr p) (getp d "id") (getp d p) (maxGSIK o)) <$> P)
        ++ ((λ e, CreateEdge (tenant o) (VStr e) (getp d "id") (getp d e) (maxGSIK o)) <$> E)
    ∧ length (promises inv0) = S (length (issued_by w w0))
    ∧ (∀ i p, promises inv0 !! S i = Some p → state p = Pending)
    ∧ returned inv0 = Pending
    ∧ ∀ evs st,
        run evs (w0, inv0) = Some st →
        calls st.1 = calls w0
        ∧ length (promises st.2) = length (promises inv0)
        ∧ ∀ result, returned st.2 = Fulfilled result →
            ∀ i p, promises st.2 !! i = Some p →
              is_fulfilled (state p) = true
              ∧ (0 < i → ∃ response, Settle i (Resolve response) ∈ evs).
Proof.
  intros Hcreate Hdoc Hid P E.
  destruct (call_started o f docl d w Hcreate Hdoc Hid)
    as (ls & h' & Hrun & _ & _ & Hlen & _ & _ & Hgood).
  cbn zeta in Hrun, Hgood. cbn [fst snd] in Hrun.
  eexists _, _. split; [exact Hrun|].
  assert (Hissued : issued_by w (World h' (calls w ++ issued o d)) = issued o d).
  { unfold issued_by. cbn [calls]. apply drop_app_length. }
  rewrite Hissued. cbn [promises returned].
  assert (Hsize : length (resolved VUndefined
                    :: replicate (length (present d (default [] (properties o))))
                         property_promise ++ (edge_promise <$> ls))
                  = S (length (issued o d))).
  { cbn [length]. unfold issued.
    rewrite !length_app, length_replicate, !length_fmap. by rewrite Hlen. }
  split_and!; try done.
  - intros i p Hp.
    change ((replicate (length (present d (default [] (properties o))))
               property_promise ++ (edge_promise <$> ls)) !! i = Some p) in Hp.
    apply lookup_app_Some in Hp as [Hp|[_ Hp]].
    + by apply lookup_replicate in Hp as [-> _].
    + rewrite list_lookup_fmap in Hp.
      destruct (ls !! _); [|done]. by injection Hp as <-.
  - intros evs st Hst. pose proof (Hgood evs st Hst) as G.
    split_and!.
    + apply (good_calls _ _ _ _ _ _ _ _ _ _ G).
    + rewrite (good_length _ _ _ _ _ _ _ _ _ _ G), Hsize. unfold issued.
      by rewrite length_app, !length_fmap, Hlen.
    + intros result Hret i p Hp.
      pose proof (good_returned _ _ _ _ _ _ _ _ _ _ G) as Gr.
      rewrite Hret in Gr. destruct Gr as [Gr _].
      destruct (all_joined_lookup _ _ _ Gr Hp) as [Hf _].
      split; [exact Hf|]. intros Hi.
      destruct (good_slots _ _ _ _ _ _ _ _ _ _ G _ _ Hp) as (_ & Hby & _).
      unfold settled_by in Hby. destruct (state p) as [|v|]; try done.
      destruct Hby as [->|(r & Hr & _)]; [lia|by exists r].
Qed.

Lemma C8_witness :
  ∃ w0 inv0,
    book_update 5%positive shelf = (w0, Return inv0)
    ∧ issued_by shelf w0
      = [CreateProperty (VStr "cuid-tenant") (VStr "Genre") (VStr "cuix")
           (VStr "Fantasy") (VNum 4);
         CreateEdge (VStr "cuid-tenant") (VStr "Author") (VStr "cuix")
           (VStr "cuiv") (VNum 4)]
    ∧ length (promises inv0) = 3
    ∧ returned inv0 = Pending.
Proof.
  destruct (C8_issued_together_awaited_together book book_update 5%positive
              elantris shelf)
    as (w0 & inv0 & Hrun & Hissued & Hsize & _ & Hret & _);
    [reflexivity | reflexivity | reflexivity |].
  exists w0, inv0. split; [exact Hrun|].
  rewrite Hsize, Hissued. by split_and!.
Defined.

(** C9. The document is only read.  Whether the call throws or runs, and
    whatever events follow, every object that was in the heap before the
    call, the document among them, is there unchanged; and the object the
    returned promise is fulfilled with is one that was not in the heap
    before the call, so it is not the document. *)
Theorem C9_document_is_not_mutated o f docl d w :
  create o = Return f →
  heap w !! docl = Some d →
  ∀ w0 c,
    f docl w = (w0, c) →
    calls w0 = calls w ++ issued_by w w0
    ∧ (∀ l x, heap w !! l = Some x → heap w0 !! l = Some x)
    ∧ ∀ inv0, c = Return inv0 →
        ∀ evs st,
          run evs (w0, inv0) = Some st →
          heap st.1 !! docl = Some d
          ∧ (∀ l x, heap w !! l = Some x → heap st.1 !! l = Some x)
          ∧ ∀ result, returned st.2 = Fulfilled result →
              result ≠ docl ∧ heap w !! result = None
              ∧ is_Some (heap st.1 !! result).
Proof.
  intros Hcreate Hdoc w0 c Hrun0.
  pose proof (deref_lookup _ _ _ Hdoc) as Hd.
  destruct (is_undefined (getp d "id")) eqn:Hid.
  - destruct (create_Return _ _ Hcreate) as (db0 & _ & _ & _ & _ & ->).
    rewrite update_throws in Hrun0 by (by rewrite Hd).
    injection Hrun0 as <- <-. unfold issued_by.
    rewrite drop_all, app_nil_r. by split_and!.
  - destruct (call_started o f docl d w Hcreate Hdoc Hid)
      as (ls & h' & Hrun & _ & _ & _ & _ & Hpres & Hgood).
    cbn zeta in Hrun, Hgood. cbn [fst snd] in Hrun.
    rewrite Hrun in Hrun0. injection Hrun0 as <- <-.
    split_and!.
    + unfold issued_by. cbn [calls]. by rewrite drop_app_length.
    + exact Hpres.
    + intros inv0 [= <-] evs st Hst. pose proof (Hgood evs st Hst) as G.
      pose proof (good_frame _ _ _ _ _ _ _ _ _ _ G) as Gf.
      split_and!; [by apply Gf|exact Gf|].
      intros result Hret.
      pose proof (good_returned _ _ _ _ _ _ _ _ _ _ G) as Gr.
      rewrite Hret in Gr. destruct Gr as (_ & Hnew & _ & Hcell).
      split_and!; [|exact Hnew|by eauto].
      intros ->. by rewrite Hdoc in Hnew.
Qed.

Lemma C9_witness :
  ∃ st result,
    (started book_update 5%positive shelf ≫= run book_run) = Some st
    ∧ returned st.2 = Fulfilled result
    ∧ heap st.1 !! 5%positive = Some elantris
    ∧ result ≠ 5%positive.
Proof.
  destruct (book_update 5%positive shelf) as [w0 c] eqn:Hrun.
  destruct (C9_document_is_not_mutated book book_update 5%positive elantris
              shelf eq_refl eq_refl w0 c Hrun) as (_ & _ & H).
  unfold started. rewrite Hrun.
  vm_compute in Hrun. injection Hrun as <- <-. cbn [mbind option_bind].
  eexists _, _. split; [vm_compute; reflexivity|]. split; [reflexivity|].
  edestruct (H _ eq_refl book_run) as (Hsame & _ & Hfresh);
    [vm_compute; reflexivity|].
  split; [exact Hsame|]. by apply Hfresh.
Defined.

Lemma update_no_lists db0 t m docl w :
  is_undefined (getp (deref (heap w) docl) "id") = false →
  update db0 t m [] [] docl w
  = (w, Return (Invocation docl (getp (deref (heap w) docl) "id") []
                  [resolved VUndefined] Pending)).
Proof.
  intros Hid. unfold update. rewrite bind_run. unfold load at 1.
  cbn beta iota zeta. rewrite Hid. by destruct w.
Qed.

(** C10. With neither [properties] nor [edges] configured, both lists
    are empty: a call for a document with a node id leaves the world as it
    is (no store call, then or later), the only thing that can happen next
    is that [Promise.all] takes in [Promise.resolve()], and with that the
    returned promise is fulfilled with a fresh object: [{id: node}] with
    the document merged over it. *)
Theorem C10_no_lists_no_writes o f docl d w :
  create o = Return f →
  properties o = None → edges o = None →
  heap w !! docl = Some d →
  is_undefined (getp d "id") = false →
  ∃ inv0,
    f docl w = (w, Return inv0)
    ∧ (∀ evs st, run evs (w, inv0) = Some st → calls st.1 = calls w)
    ∧ (∀ ev st, step ev (w, inv0) = Some st → ev = Join 0)
    ∧ ∃ st result,
        run [Join 0] (w, inv0) = Some st
        ∧ returned st.2 = Fulfilled result
        ∧ heap st.1 !! result
          = Some (object_assign {[ "id" := getp d "id" ]} [d])
        ∧ heap w !! result = None.
Proof.
  intros Hcreate Hprops Hedges Hdoc Hid.
  pose proof (deref_lookup _ _ _ Hdoc) as Hd.
  destruct (call_started o f docl d w Hcreate Hdoc Hid)
    as (ls & h' & Hrun & _ & _ & _ & _ & _ & Hgood).
  cbn zeta in Hrun, Hgood. cbn [fst snd] in Hrun.
  destruct (create_Return _ _ Hcreate) as (db0 & _ & _ & _ & _ & Hf).
  rewrite Hprops, Hedges in Hf. cbn [default] in Hf.
  assert (Hrun' : f docl w
                  = (w, Return (Invocation docl (getp d "id") []
                                  [resolved VUndefined] Pending))).
  { rewrite Hf, update_no_lists; rewrite Hd; done. }
  rewrite Hrun' in Hrun. injection Hrun as Hw Hls Hps. subst ls.
  pose proof (f_equal calls Hw) as Hc. cbn [calls] in Hc.
  rewrite <- Hps, <- Hw in Hgood.
  eexists. split; [exact Hrun'|]. split_and!.
  - intros evs st Hst.
    rewrite (good_calls _ _ _ _ _ _ _ _ _ _ (Hgood evs st Hst)).
    by symmetry.
  - intros [i r|i] st Hstep; cbn [step fst snd] in Hstep.
    + unfold settle in Hstep. cbn [promises] in Hstep.
      destruct i as [|i]; cbn in Hstep; done.
    + destruct i as [|i]; [done|].
      unfold join in Hstep. cbn [promises] in Hstep. cbn in Hstep. done.
  - set (lr := fresh (dom (heap w))).
    exists (World (<[lr := result_object (getp d "id") d []]> (heap w)) (calls w),
            Invocation docl (getp d "id") []
              [Promise Direct (Fulfilled VUndefined) true] (Fulfilled lr)), lr.
    split_and!.
    + cbn [run step fst snd]. unfold join.
      cbn [promises lookup list_lookup mbind option_bind resolved joined state
           on_fulfil set_promise insert list_insert doc node edgeMap returned
           all_joined forallb is_fulfilled is_pending andb].
      unfold set_promise. cbn [doc node edgeMap promises returned].
      rewrite (on_all_fulfilled_run d docl (getp d "id") [] []) by done.
      reflexivity.
    + reflexivity.
    + cbn [fst heap]. rewrite lookup_insert_eq.
      unfold result_object, object_assign, edge_entries. cbn [foldl].
      by rewrite (copy_plain _ ∅), (left_id_L ∅ (∪)).
    + apply fresh_lookup.
Qed.

Lemma C10_witness :
  ∃ o inv0 st result,
    properties o = None ∧ edges o = None
    ∧ create o = Return (update DynamoDBGraphDriver VUndefined (VNum 0) [] [])
    ∧ update DynamoDBGraphDriver VUndefined (VNum 0) [] [] 5%positive shelf
      = (shelf, Return inv0)
    ∧ run [Join 0] (shelf, inv0) = Some st
    ∧ returned st.2 = Fulfilled result
    ∧ heap st.1 !! result = Some elantris.
Proof.
  set (o := Options (Some DynamoDBGraphDriver) VUndefined (VStr "Book")
              (VStr "Name") (VNum 0) None None).
  destruct (C10_no_lists_no_writes o
              (update DynamoDBGraphDriver VUndefined (VNum 0) [] [])
              5%positive elantris shelf)
    as (inv0 & Hrun & _ & _ & st & result & Hst & Hret & Hcell & _);
    [reflexivity | reflexivity | reflexivity | reflexivity | reflexivity |].
  exists o, inv0, st, result. by split_and!.
Defined.

(** ** More about Document Update *)

(** X1. The writes go out in one order: every [createProperty] call of
    an invocation is issued before every [createEdge] call of it, after
    whatever the trace held before; and there are at most as many calls as
    names configured. *)
Theorem X1_properties_before_edges o f docl d w st0 :
  create o = Return f →
  heap w !! docl = Some d →
  started f docl w = Some st0 →
  calls st0.1 = calls w ++ issued_by w st0.1
  ∧ (∀ i j ci cj,
       issued_by w st0.1 !! i = Some ci → issued_by w st0.1 !! j = Some cj →
       is_createProperty ci = true → is_createEdge cj = true → i < j)
  ∧ (length (issued_by w st0.1)
     ≤ length (default [] (properties o)) + length (default [] (edges o)))%nat.
Proof.
  intros Hcreate Hdoc Hst0.
  destruct (started_good o f docl d w st0 Hcreate Hdoc Hst0)
    as (_ & ls & h' & -> & _).
  cbn [fst calls]. unfold issued_by. cbn [calls]. rewrite drop_app_length.
  split_and!; [done| |].
  - unfold issued. intros i j ci cj Hi Hj Hpi Hej.
    apply lookup_app_Some in Hi as [Hi|[_ Hi]].
    + apply lookup_lt_Some in Hi.
      apply lookup_app_Some in Hj as [Hj|[Hge _]]; [|lia].
      rewrite list_lookup_fmap in Hj.
      destruct (present d (default [] (properties o)) !! j); [|done].
      injection Hj as <-. done.
    + rewrite list_lookup_fmap in Hi.
      destruct (present d (default [] (edges o)) !! _); [|done].
      injection Hi as <-. done.
  - unfold issued, present. rewrite length_app, !length_fmap.
    pose proof (length_filter (λ name, ¬ is_undefined (getp d name))
                  (default [] (properties o))).
    pose proof (length_filter (λ name, ¬ is_undefined (getp d name))
                  (default [] (edges o))).
    lia.
Qed.

Lemma X1_witness :
  ∃ st0,
    started book_update 5%positive shelf = Some st0
    ∧ (length (issued_by shelf st0.1) ≤ 3)%nat.
Proof.
  destruct book_started as [st0 Hst0].
  destruct (X1_properties_before_edges book book_update 5%positive elantris
              shelf st0 eq_refl eq_refl Hst0) as (_ & _ & Hlen).
  exists st0. split; [exact Hst0|exact Hlen].
Defined.

(** X2. A call cannot get stuck.  In every state it reaches, the driver
    can settle each pending element, [Promise.all] can take in each
    settled element it has not taken in, and when nothing more can happen
    the returned promise is settled. *)
Theorem X2_never_stuck o f docl d w st0 evs st :
  create o = Return f →
  heap w !! docl = Some d →
  started f docl w = Some st0 →
  run evs st0 = Some st →
  (∀ i p outcome, promises st.2 !! i = Some p → state p = Pending →
     is_Some (step (Settle i outcome) st))
  ∧ (∀ i p, promises st.2 !! i = Some p → is_pending (state p) = false →
       joined p = false → is_Some (step (Join i) st))
  ∧ ((∀ ev, step ev st = None) → is_pending (returned st.2) = false).
Proof.
  intros Hcreate Hdoc Hst0 Hst.
  destruct (started_good o f docl d w st0 Hcreate Hdoc Hst0)
    as (_ & ls & h' & _ & _ & _ & Hgood).
  pose proof (Hgood evs st Hst) as G.
  split_and!.
  - intros i p outcome Hp Hs. by eapply settle_enabled.
  - intros i p Hp Hs Hj. by eapply join_enabled.
  - intros Hnone.
    pose proof (good_returned _ _ _ _ _ _ _ _ _ _ G) as Gr.
    destruct (returned st.2) as [|lr|e]; [|done|done].
    destruct Gr as [Hnot Hjf].
    rewrite all_joined_intro in Hnot; [done|].
    intros i p Hp.
    assert (Hs : is_pending (state p) = false).
    { destruct (state p) eqn:Hs; [|done|done].
      destruct (settle_enabled i (Reject (Error "")) st p Hp Hs) as [st' Hst'].
      by rewrite Hnone in Hst'. }
    assert (Hj : joined p = true).
    { destruct (joined p) eqn:Hj; [done|].
      destruct (join_enabled i st p Hp Hs Hj) as [st' Hst'].
      by rewrite Hnone in Hst'. }
    split; [by eapply Hjf|done].
Qed.

Lemma X2_witness :
  ∃ st0 st,
    started book_update 5%positive shelf = Some st0
    ∧ run book_run st0 = Some st
    ∧ ((∀ ev, step ev st = None) → is_pending (returned st.2) = false).
Proof.
  destruct book_run_fulfilled as (st0 & st & r & Hst0 & Hst & _).
  destruct (X2_never_stuck book book_update 5%positive elantris shelf st0
              book_run st eq_refl eq_refl Hst0 Hst) as (_ & _ & Hend).
  exists st0, st. by split_and!.
Defined.

(** X3. The result does not depend on the order in which things happen.
    Two runs of the same call that both end fulfilled, and in which each
    edge write was answered with the same [Item.Data], end with equal
    result objects, whatever the order of the events and whatever the
    property writes were answered with. *)
Theorem X3_result_independent_of_order o f docl d w st0 evs1 evs2 st1 st2 r1 r2 :
  create o = Return f →
  heap w !! docl = Some d →
  started f docl w = Some st0 →
  run evs1 st0 = Some st1 → returned st1.2 = Fulfilled r1 →
  run evs2 st0 = Some st2 → returned st2.2 = Fulfilled r2 →
  let np := length (present d (default [] (properties o))) in
  (∀ k a b, Settle (S (np + k)) (Resolve a) ∈ evs1 →
            Settle (S (np + k)) (Resolve b) ∈ evs2 →
            item_data a = item_data b) →
  ∃ result, heap st1.1 !! r1 = Some result ∧ heap st2.1 !! r2 = Some result.
Proof.
  intros Hcreate Hdoc Hst0 Hst1 Hr1 Hst2 Hr2 np Hsame.
  destruct (started_good o f docl d w st0 Hcreate Hdoc Hst0)
    as (_ & ls & h' & _ & _ & Hlen & Hgood).
  fold np in Hgood.
  destruct (fulfilled_datas _ _ _ _ _ _ _ _ _ _ _ (Hgood _ _ Hst1) Hr1)
    as (Hl1 & Hfrom1 & Hcell1).
  destruct (fulfilled_datas _ _ _ _ _ _ _ _ _ _ _ (Hgood _ _ Hst2) Hr2)
    as (Hl2 & Hfrom2 & Hcell2).
  eexists. split; [exact Hcell1|]. rewrite Hcell2. do 3 f_equal.
  apply (list_eq_same_length _ _ (length ls)); [done|done|].
  intros k x y _ Hx Hy.
  destruct (Hfrom2 k x Hx) as (b & Hb & Hdb).
  destruct (Hfrom1 k y Hy) as (a & Ha & Hda).
  pose proof (Hsame k a b Ha Hb) as Hab. congruence.
Qed.


Lemma X3_witness :
  ∃ st0 st1 st2 r1 r2 result,
    started book_update 5%positive shelf = Some st0
    ∧ run book_run st0 = Some st1
    ∧ run [Join 0; Settle 2 (Resolve sanderson); Join 2;
           Settle 1 (Resolve (VStr "ok")); Join 1] st0 = Some st2
    ∧ returned st1.2 = Fulfilled r1 ∧ returned st2.2 = Fulfilled r2
    ∧ heap st1.1 !! r1 = Some result ∧ heap st2.1 !! r2 = Some result.
Proof.
  destruct book_run_fulfilled as (st0 & st1 & r1 & Hst0 & Hst1 & Hr1).
  destruct (ends_fulfilled book_update 5%positive shelf
              [Join 0; Settle 2 (Resolve sanderson); Join 2;
               Settle 1 (Resolve (VStr "ok")); Join 1])
    as (st0' & st2 & r2 & Hst0' & Hst2 & Hr2); [vm_compute; reflexivity|].
  rewrite Hst0 in Hst0'. injection Hst0' as <-.
  destruct (X3_result_independent_of_order book book_update 5%positive
              elantris shelf st0 _ _ st1 st2 r1 r2
              eq_refl eq_refl Hst0 Hst1 Hr1 Hst2 Hr2) as (result & H1 & H2).
  - assert (Hnp : length (present elantris (default [] (properties book))) = 1)
      by (vm_compute; reflexivity).
    rewrite Hnp. intros k a b Ha Hb.
    unfold book_run in Ha. rewrite !elem_of_cons in Ha. rewrite !elem_of_cons in Hb.
    destruct Ha as [Ha|[Ha|[Ha|[Ha|[Ha|Ha%elem_of_nil]]]]]; try discriminate Ha;
      try contradiction; injection Ha as Hk Ha; subst a; try lia.
    destruct Hb as [Hb|[Hb|[Hb|[Hb|[Hb|Hb%elem_of_nil]]]]]; try discriminate Hb;
      try contradiction; injection Hb as Hk' Hb; subst b; try lia.
    reflexivity.
  - exists st0, st1, st2, r1, r2, result. by split_and!.
Defined.

(** X4. A write that succeeded can still fail the call.  When the
    driver fulfils a pending edge write with a response that has no
    [Item] (the response, or its [Item], is undefined or null), reading
    [response.Item.Data] throws a [TypeError]: the edge's promise is
    rejected with it, no data is captured, nothing is written or
    re-issued.  From then on the returned promise cannot be fulfilled, and
    whenever [Promise.all] takes the element in while the returned promise
    is still pending, at once or after other events, it rejects it with
    that [TypeError]. *)
Theorem X4_response_without_item o f docl d w st0 evs st k e p response :
  create o = Return f →
  heap w !! docl = Some d →
  started f docl w = Some st0 →
  run evs st0 = Some st →
  let np := length (present d (default [] (properties o))) in
  present d (default [] (edges o)) !! k = Some e →
  promises st.2 !! S (np + k) = Some p → state p = Pending →
  without_item response = true →
  ∃ message st',
    item_data response = Throw (TypeError message)
    ∧ step (Settle (S (np + k)) (Resolve response)) st = Some st'
    ∧ st'.1 = st.1
    ∧ (∃ p', promises st'.2 !! S (np + k) = Some p'
             ∧ state p' = Rejected (TypeError message))
    ∧ ∀ evs' st'', run evs' st' = Some st'' →
        is_fulfilled (returned st''.2) = false
        ∧ (returned st''.2 = Pending →
           ∃ st3, step (Join (S (np + k))) st'' = Some st3
                  ∧ returned st3.2 = Rejected (TypeError message)).
Proof.
  intros Hcreate Hdoc Hst0 Hst np He Hp Hs Hno.
  destruct (started_good o f docl d w st0 Hcreate Hdoc Hst0)
    as (_ & ls & h' & _ & _ & Hlen & Hgood).
  fold np in Hgood. pose proof (Hgood evs st Hst) as G.
  destruct (item_data_without_item _ Hno) as [message Hdata].
  destruct (settle_enabled (S (np + k)) (Resolve response) st p Hp Hs)
    as [st' Hstep].
  destruct (settle_state _ _ _ _ Hstep) as (p0 & Hp0 & _ & Hp' & _).
  rewrite Hp in Hp0. injection Hp0 as <-.
  destruct (good_slots _ _ _ _ _ _ _ _ _ _ G _ _ Hp) as (_ & _ & _ & _ & Hslot).
  destruct (Hslot k eq_refl) as (l & e' & _ & _ & Hh & _).
  rewrite Hh in Hp'. cbn [settlement delivered] in Hp'. rewrite Hdata in Hp'.
  exists message, st'. split_and!; [exact Hdata|exact Hstep| |by eauto|].
  - destruct st as [w1 inv]. cbn [step fst snd] in *. unfold settle in Hstep.
    rewrite Hp in Hstep. cbn [mbind option_bind] in Hstep.
    rewrite Hs, Hh, Hdata in Hstep. cbn [is_pending] in Hstep.
    by injection Hstep as <-.
  - intros evs' st'' Hst''.
    destruct (run_state_stable _ _ _ _ _ Hst'' Hp') as (q & Hq & Hsq & _);
      [done|].
    cbn [state] in Hsq.
    pose proof (Hgood _ _ (run_trans _ _ _ _ _ (run_snoc _ _ _ _ _ Hst Hstep) Hst''))
      as G''.
    split; [by eapply rejected_not_fulfilled|].
    intros Hret.
    pose proof (good_returned _ _ _ _ _ _ _ _ _ _ G'') as Gr.
    rewrite Hret in Gr. destruct Gr as [_ Hjf].
    assert (Hj : joined q = false).
    { destruct (joined q) eqn:Hj; [|done].
      pose proof (Hjf _ _ Hq Hj) as Hf. by rewrite Hsq in Hf. }
    destruct (join_enabled (S (np + k)) st'' q Hq) as [st3 Hjoin];
      [by rewrite Hsq|exact Hj|].
    exists st3. split; [exact Hjoin|].
    destruct (join_state _ _ _ Hjoin) as (q' & Hq' & _ & _ & _ & _ & Hrej).
    rewrite Hq in Hq'. injection Hq' as <-.
    apply Hrej; [done|]. by rewrite Hret.
Qed.

Lemma X4_witness :
  ∃ st0 message st' st'' st3,
    started book_update 5%positive shelf = Some st0
    ∧ item_data VNull = Throw (TypeError message)
    ∧ step (Settle 2 (Resolve VNull)) st0 = Some st'
    ∧ st'.1 = st0.1
    ∧ run [Settle 1 (Resolve VNull); Join 0; Join 1] st' = Some st''
    ∧ step (Join 2) st'' = Some st3
    ∧ returned st3.2 = Rejected (TypeError message).
Proof.
  assert (Hfact :
    (λ _, true) <$>
      (started book_update 5%positive shelf ≫= λ st0,
       promises st0.2 !! 2 ≫= λ p,
       if is_pending (state p)
       then step (Settle 2 (Resolve VNull)) st0 ≫= λ st',
            run [Settle 1 (Resolve VNull); Join 0; Join 1] st' ≫= λ st'',
            if is_pending (returned st''.2) then Some st'' else None
       else None)
    = Some true) by (vm_compute; reflexivity).
  destruct (started book_update 5%positive shelf) as [st0|] eqn:Hst0; [|done].
  cbn [mbind option_bind] in Hfact.
  destruct (promises st0.2 !! 2) as [p|] eqn:Hp; [|done].
  cbn [mbind option_bind] in Hfact.
  destruct (state p) as [| |] eqn:Hs; cbn [is_pending] in Hfact; [|done|done].
  assert (HP : length (present elantris (default [] (properties book))) = 1)
    by (vm_compute; reflexivity).
  pose proof (X4_response_without_item book book_update 5%positive elantris
                shelf st0 [] st0 0 "Author" p VNull
                eq_refl eq_refl Hst0 eq_refl) as H.
  cbn zeta in H. rewrite HP in H. cbn [Nat.add] in H.
  destruct H as (message & st' & Hdata & Hstep & Hsame & _ & Hlater);
    [vm_compute; reflexivity|exact Hp|exact Hs|reflexivity|].
  rewrite Hstep in Hfact. cbn [mbind option_bind] in Hfact.
  destruct (run [Settle 1 (Resolve VNull); Join 0; Join 1] st')
    as [st''|] eqn:Hst''; [|done].
  cbn [mbind option_bind] in Hfact.
  destruct (returned st''.2) as [| |] eqn:Hret; cbn [is_pending] in Hfact;
    [|done|done].
  destruct (Hlater _ _ Hst'') as [_ Hjoin].
  destruct (Hjoin Hret) as (st3 & Hjoin3 & Hret3).
  exists st0, message, st', st'', st3. by split_and!.
Defined.

Lemma edge_entries_is_Some acc (pairs : list (string * value)) key :
  is_Some (edge_entries acc pairs !! key)
  ↔ is_Some (acc !! key) ∨ ∃ e, e ∈ pairs.*1 ∧ key = "@" +:+ e.
Proof.
  revert acc. induction pairs as [|[e v] pairs IH]; intros acc.
  - cbn. split; [by left|]. intros [?|(e & He & _)]; [done|]. inversion He.
  - cbn [edge_entries foldl fst snd].
    fold (edge_entries (<["@" +:+ e := v]> acc) pairs). rewrite IH.
    cbn [fmap list_fmap fst]. split.
    + intros [Hacc|(e' & He' & ->)].
      * destruct (decide ("@" +:+ e = key)) as [<-|Hne].
        -- right. exists e. split; [|done]. apply elem_of_cons. by left.
        -- left. by rewrite lookup_insert_ne in Hacc.
      * right. exists e'. split; [|done]. apply elem_of_cons. by right.
    + intros [Hacc|(e' & He' & ->)].
      * left. destruct (decide ("@" +:+ e = key)) as [<-|Hne].
        -- rewrite lookup_insert_eq. by eexists.
        -- by rewrite lookup_insert_ne.
      * apply elem_of_cons in He' as [->|He'].
        -- left. rewrite lookup_insert_eq. by eexists.
        -- right. by exists e'.
Qed.

(** X5. The keys of the result.  When the returned promise is
    fulfilled, its value has exactly these own keys: [id], the keys of the
    document other than [__proto__], and [@<edge>] for every edge name
    present in the document, also when the data captured for it is
    undefined.  An own [__proto__] of the document, as [JSON.parse] makes
    one, is not among them. *)
Theorem X5_keys_of_the_result o f docl d w st0 evs st r :
  create o = Return f →
  heap w !! docl = Some d →
  started f docl w = Some st0 →
  run evs st0 = Some st →
  returned st.2 = Fulfilled r →
  ∃ result,
    heap st.1 !! r = Some result
    ∧ ∀ key,
        is_Some (result !! key)
        ↔ key ≠ "__proto__"
          ∧ (key = "id" ∨ is_Some (d !! key)
             ∨ ∃ e, e ∈ present d (default [] (edges o)) ∧ key = "@" +:+ e).
Proof.
  intros Hcreate Hdoc Hst0 Hst Hret.
  destruct (started_good o f docl d w st0 Hcreate Hdoc Hst0)
    as (_ & ls & h' & _ & _ & Hlen & Hgood).
  destruct (fulfilled_datas _ _ _ _ _ _ _ _ _ _ _ (Hgood _ _ Hst) Hret)
    as (Hl & _ & Hcell).
  eexists. split; [exact Hcell|]. intros key.
  destruct (decide (key = "__proto__")) as [->|Hne].
  - rewrite result_object_proto. split; [by intros []%is_Some_None|].
    by intros [[] _].
  - rewrite result_object_eq.
    rewrite !lookup_union_is_Some, edge_entries_is_Some.
    rewrite fst_zip by lia.
    rewrite lookup_empty, lookup_singleton_is_Some, lookup_delete_ne by done.
    split.
    + intros [[[]%is_Some_None|?]|[?|?]]; auto.
    + intros [_ [?|[?|?]]]; auto.
Qed.

Lemma X5_witness :
  ∃ st0 st r result,
    started book_update 5%positive inbox = Some st0
    ∧ run [Join 0] st0 = Some st
    ∧ returned st.2 = Fulfilled r
    ∧ heap st.1 !! r = Some result
    ∧ is_Some (result !! "Name")
    ∧ result !! "__proto__" = None.
Proof.
  destruct (ends_fulfilled book_update 5%positive inbox [Join 0])
    as (st0 & st & r & Hst0 & Hst & Hr); [vm_compute; reflexivity|].
  destruct (X5_keys_of_the_result book book_update 5%positive parsed inbox
              st0 [Join 0] st r eq_refl eq_refl Hst0 Hst Hr)
    as (result & Hcell & Hkeys).
  exists st0, st, r, result. split_and!; try done.
  - apply Hkeys. split; [done|]. right. left. vm_compute. by eexists.
  - apply eq_None_not_Some. intros [Hne _]%Hkeys. done.
Defined.

Lemma edge_entries_last acc (pairs : list (string * value)) k e v :
  pairs !! k = Some (e, v) →
  (∀ j, k < j → pairs.*1 !! j ≠ Some e) →
  edge_entries acc pairs !! ("@" +:+ e) = Some v.
Proof.
  revert acc k. induction pairs as [|[e' v'] pairs IH]; intros acc k Hk Hlast;
    [done|].
  cbn [edge_entries foldl fst snd].
  fold (edge_entries (<["@" +:+ e' := v']> acc) pairs).
  destruct k as [|k].
  - injection Hk as -> ->. rewrite edge_entries_other.
    + apply lookup_insert_eq.
    + intros e2 He2 Heq%at_key_inj. subst e2.
      apply list_elem_of_lookup_1 in He2 as [j Hj].
      by apply (Hlast (S j)); [lia|].
  - apply (IH _ k); [exact Hk|].
    intros j Hj. apply (Hlast (S j)). lia.
Qed.

(** X6. When an edge name is listed more than once, the last listed
    wins.  In a fulfilled result, the value under [@<edge>] is the
    [Item.Data] of the response to the last [createEdge] call issued for
    that name, whatever the order in which the responses came. *)
Theorem X6_last_listed_edge_wins o f docl d w st0 evs st r k e :
  create o = Return f →
  heap w !! docl = Some d →
  started f docl w = Some st0 →
  run evs st0 = Some st →
  returned st.2 = Fulfilled r →
  let E := present d (default [] (edges o)) in
  let np := length (present d (default [] (properties o))) in
  E !! k = Some e →
  (∀ j, k < j → E !! j ≠ Some e) →
  ∃ response,
    Settle (S (np + k)) (Resolve response) ∈ evs
    ∧ item_data response = Return (getp (deref (heap st.1) r) ("@" +:+ e))
    ∧ ∀ fields item,
        response = VObj fields → fields !! "Item" = Some (VObj item) →
        getp (deref (heap st.1) r) ("@" +:+ e) = getp item "Data".
Proof.
  intros Hcreate Hdoc Hst0 Hst Hret E np He Hlast.
  destruct (started_good o f docl d w st0 Hcreate Hdoc Hst0)
    as (_ & ls & h' & _ & _ & Hlen & Hgood).
  fold E np in Hlen, Hgood.
  destruct (fulfilled_datas _ _ _ _ _ _ _ _ _ _ _ (Hgood _ _ Hst) Hret)
    as (Hl & Hfrom & Hcell).
  set (datas := fulfilled_value <$> drop (S np) (promises st.2)) in *.
  destruct (lookup_lt_is_Some_2 datas k) as [v Hv].
  { rewrite Hl, Hlen. eapply lookup_lt_Some; eauto. }
  destruct (Hfrom k v Hv) as (response & Hin & Hdata).
  assert (Hval : getp (deref (heap st.1) r) ("@" +:+ e) = v).
  { rewrite (deref_lookup _ _ _ Hcell). unfold getp. rewrite result_object_eq.
    erewrite lookup_union_Some_l; [done|].
    apply (edge_entries_last _ _ k).
    - apply lookup_zip_with_Some. by exists e, v.
    - rewrite fst_zip by lia. exact Hlast. }
  exists response. rewrite Hval. split_and!; [exact Hin|exact Hdata|].
  intros fields item -> Hitem.
  rewrite (item_data_object _ _ Hitem) in Hdata. by injection Hdata.
Qed.

Lemma X6_witness :
  ∃ st0 st r,
    started reprint_update 5%positive shelf = Some st0
    ∧ run reprint_run st0 = Some st
    ∧ returned st.2 = Fulfilled r
    ∧ getp (deref (heap st.1) r) "@Author" = VStr "Brandon Sanderson".
Proof.
  destruct (ends_fulfilled reprint_update 5%positive shelf reprint_run)
    as (st0 & st & r & Hst0 & Hst & Hr); [vm_compute; reflexivity|].
  exists st0, st, r. split_and!; try done.
  assert (HE : present elantris (default [] (edges reprint)) = ["Author"; "Author"])
    by (vm_compute; reflexivity).
  assert (HP : length (present elantris (default [] (properties reprint))) = 1)
    by (vm_compute; reflexivity).
  pose proof (X6_last_listed_edge_wins reprint reprint_update 5%positive elantris
                shelf st0 reprint_run st r 1 "Author" eq_refl eq_refl Hst0 Hst Hr)
    as H.
  cbn zeta in H. rewrite HE, HP in H.
  destruct H as (response & Hin & _ & Hdata); [reflexivity| |].
  { intros [|[|j]] Hj; [lia|lia|done]. }
  unfold reprint_run in Hin. rewrite !elem_of_cons in Hin.
  destruct Hin as [Hin|[Hin|[Hin|[Hin|[Hin|[Hin|[Hin|Hin%elem_of_nil]]]]]]];
    try discriminate Hin; [|done].
  injection Hin as ->.
  assert (Hitem :
    ({[ "Item" := VObj {[ "Data" := VStr "Brandon Sanderson" ]} ]}
       : gmap string value) !! "Item"
    = Some (VObj {[ "Data" := VStr "Brandon Sanderson" ]}))
    by (vm_compute; reflexivity).
  transitivity (getp ({[ "Data" := VStr "Brandon Sanderson" ]} : gmap string value)
                  "Data");
    [exact (Hdata _ _ eq_refl Hitem)|vm_compute; reflexivity].
Defined.

(** X7. A fulfilled call is over.  Once the returned promise is
    fulfilled no event is left: every write has been answered and taken
    in, so nothing can write to the result or to anything else on behalf
    of this call. *)
Theorem X7_nothing_after_fulfilment o f docl d w st0 evs st r :
  create o = Return f →
  heap w !! docl = Some d →
  started f docl w = Some st0 →
  run evs st0 = Some st →
  returned st.2 = Fulfilled r →
  (∀ ev, step ev st = None)
  ∧ ∀ evs' st', run evs' st = Some st' → evs' = [] ∧ st' = st.
Proof.
  intros Hcreate Hdoc Hst0 Hst Hret.
  destruct (started_good o f docl d w st0 Hcreate Hdoc Hst0)
    as (_ & ls & h' & _ & _ & _ & Hgood).
  pose proof (good_returned _ _ _ _ _ _ _ _ _ _ (Hgood _ _ Hst)) as Gr.
  rewrite Hret in Gr. destruct Gr as (Hall & _).
  assert (Hnone : ∀ ev, step ev st = None).
  { intros ev. destruct (step ev st) as [st'|] eqn:Hstep; [|done].
    destruct ev as [i outcome|i].
    - destruct (settle_state _ _ _ _ Hstep) as (p & Hp & Hs & _).
      destruct (all_joined_lookup _ _ _ Hall Hp) as [Hf _].
      by rewrite Hs in Hf.
    - destruct (join_state _ _ _ Hstep) as (p & Hp & Hj & _).
      destruct (all_joined_lookup _ _ _ Hall Hp) as [_ Hj']. congruence. }
  split; [exact Hnone|].
  intros [|ev evs'] st' Hrun.
  - injection Hrun as <-. done.
  - cbn [run] in Hrun. by rewrite Hnone in Hrun.
Qed.

Lemma X7_witness :
  ∃ st0 st,
    started book_update 5%positive shelf = Some st0
    ∧ run book_run st0 = Some st
    ∧ ∀ ev, step ev st = None.
Proof.
  destruct book_run_fulfilled as (st0 & st & r & Hst0 & Hst & Hr).
  destruct (X7_nothing_after_fulfilment book book_update 5%positive elantris
              shelf st0 book_run st r eq_refl eq_refl Hst0 Hst Hr) as [Hnone _].
  by exists st0, st.
Defined.

Lemma present_ext d d' (names : list string) :
  (∀ name, name ∈ names → getp d' name = getp d name) →
  present d' names = present d names.
Proof.
  unfold present. induction names as [|x names IH]; intros Hsame; [done|].
  rewrite !filter_cons, (Hsame x) by (apply elem_of_cons; by left).
  rewrite IH; [done|]. intros name Hin. apply Hsame, elem_of_cons. by right.
Qed.

(** The calls depend on the document only through its [id] and the
    recognized names. *)
Lemma issued_ext o d d' :
  getp d' "id" = getp d "id" →
  (∀ name, name ∈ default [] (properties o) ++ default [] (edges o) →
           getp d' name = getp d name) →
  issued o d' = issued o d.
Proof.
  intros Hid Hsame. unfold issued. rewrite Hid.
  rewrite !(present_ext d d') by (intros; apply Hsame, elem_of_app; auto).
  f_equal; apply list_fmap_ext; intros i x Hx;
    apply list_elem_of_lookup_2, list_elem_of_filter in Hx as [_ Hx].
  - unfold property_call. rewrite Hsame; [done|]. apply elem_of_app. by left.
  - unfold edge_call. rewrite Hsame; [done|]. apply elem_of_app. by right.
Qed.

Lemma result_object_getp nd d pairs name :
  is_Some (d !! "id") → d !! "__proto__" = None →
  (∀ e, e ∈ pairs.*1 → name ≠ "@" +:+ e) →
  getp (result_object nd d pairs) name = getp d name.
Proof.
  intros Hid Hproto Hname. unfold getp. rewrite result_object_eq.
  rewrite delete_id by done.
  rewrite lookup_union_r by (by rewrite edge_entries_other).
  destruct (d !! name) as [v|] eqn:Hd.
  - by erewrite lookup_union_Some_l.
  - rewrite lookup_union_r by done.
    rewrite lookup_singleton_ne; [done|]. intros <-.
    rewrite Hd in Hid. by destruct Hid.
Qed.

(** X8. Updating the result again repeats the same writes.  For a
    document without an own key [__proto__], and if no recognized name is
    the [@<edge>] key of an edge present in the document, a call on the
    object a fulfilled call returned starts, and issues exactly the calls
    the first one issued. *)
Theorem X8_updating_the_result_again o f docl d w st0 evs st r :
  create o = Return f →
  heap w !! docl = Some d →
  started f docl w = Some st0 →
  run evs st0 = Some st →
  returned st.2 = Fulfilled r →
  d !! "__proto__" = None →
  (∀ name e, name ∈ default [] (properties o) ++ default [] (edges o) →
             e ∈ present d (default [] (edges o)) → name ≠ "@" +:+ e) →
  ∃ st1,
    started f r st.1 = Some st1
    ∧ issued_by st.1 st1.1 = issued_by w st0.1
    ∧ node st1.2 = node st0.2.
Proof.
  intros Hcreate Hdoc Hst0 Hst Hret Hproto Hnames.
  destruct (started_good o f docl d w st0 Hcreate Hdoc Hst0)
    as (Hid & ls & h' & -> & _ & Hlen & Hgood).
  destruct (fulfilled_datas _ _ _ _ _ _ _ _ _ _ _ (Hgood _ _ Hst) Hret)
    as (Hl & _ & Hcell).
  set (pairs := zip (present d (default [] (edges o)))
                  (fulfilled_value <$> drop _ (promises st.2))) in *.
  assert (Hfst : pairs.*1 = present d (default [] (edges o)))
    by (apply fst_zip; lia).
  assert (Hdid : is_Some (d !! "id")).
  { unfold getp in Hid. destruct (d !! "id"); [by eexists|done]. }
  assert (Hrid : getp (result_object (getp d "id") d pairs) "id" = getp d "id").
  { apply result_object_getp; [done|done|]. intros e _. cbn. discriminate. }
  destruct (call_started o f r _ st.1 Hcreate Hcell) as (ls1 & h1 & Hrun1 & _).
  { by rewrite Hrid. }
  cbn zeta in Hrun1. cbn [fst snd] in Hrun1.
  eexists. unfold started. rewrite Hrun1. split; [reflexivity|].
  cbn [fst snd node calls]. unfold issued_by. cbn [calls].
  rewrite !drop_app_length. split; [|exact Hrid].
  apply issued_ext; [exact Hrid|].
  intros name Hin. apply result_object_getp; [done|done|].
  rewrite Hfst. intros e He. by apply Hnames.
Qed.

Lemma X8_witness :
  ∃ st0 st r st1,
    started book_update 5%positive shelf = Some st0
    ∧ run book_run st0 = Some st
    ∧ returned st.2 = Fulfilled r
    ∧ started book_update r st.1 = Some st1
    ∧ issued_by st.1 st1.1 = issued_by shelf st0.1.
Proof.
  destruct book_run_fulfilled as (st0 & st & r & Hst0 & Hst & Hr).
  destruct (X8_updating_the_result_again book book_update 5%positive elantris
              shelf st0 book_run st r eq_refl eq_refl Hst0 Hst Hr)
    as (st1 & Hst1 & Hsame & _).
  - vm_compute. reflexivity.
  - intros name e Hname _ ->.
    change ("@" +:+ e ∈ ["Genre"; "Author"; "Likes[]"]) in Hname.
    rewrite !elem_of_cons in Hname.
    destruct Hname as [?|[?|[?|?%elem_of_nil]]]; done.
  - by exists st0, st, r, st1.
Defined.

(** X9. Fields that are not recognized do not matter to the writes.
    Two documents with the same [id] and the same values under every
    recognized property and edge name get the same store calls, whatever
    else they hold and whatever the heap they live in. *)
Theorem X9_unrecognized_fields_are_not_written o f docl d w st0 docl' d' w' :
  create o = Return f →
  heap w !! docl = Some d →
  started f docl w = Some st0 →
  heap w' !! docl' = Some d' →
  getp d' "id" = getp d "id" →
  (∀ name, name ∈ default [] (properties o) ++ default [] (edges o) →
           getp d' name = getp d name) →
  ∃ st0',
    started f docl' w' = Some st0'
    ∧ issued_by w' st0'.1 = issued_by w st0.1.
Proof.
  intros Hcreate Hdoc Hst0 Hdoc' Hid' Hsame.
  destruct (started_good o f docl d w st0 Hcreate Hdoc Hst0)
    as (Hid & ls & h' & -> & _).
  destruct (call_started o f docl' d' w' Hcreate Hdoc') as (ls1 & h1 & Hrun1 & _).
  { by rewrite Hid'. }
  cbn zeta in Hrun1. cbn [fst snd] in Hrun1.
  eexists. unfold started. rewrite Hrun1. split; [reflexivity|].
  cbn [fst calls]. unfold issued_by. cbn [calls]. rewrite !drop_app_length.
  by apply issued_ext.
Qed.

Lemma X9_witness :
  ∃ st0 st0',
    started book_update 5%positive shelf = Some st0
    ∧ started book_update 9%positive
        (World {[ 9%positive := <["Pages" := VNum 500]> elantris ]}
           [CreateEdge VNull VNull VNull VNull VNull]) = Some st0'
    ∧ issued_by (World {[ 9%positive := <["Pages" := VNum 500]> elantris ]}
                   [CreateEdge VNull VNull VNull VNull VNull]) st0'.1
      = issued_by shelf st0.1.
Proof.
  destruct book_started as [st0 Hst0].
  destruct (X9_unrecognized_fields_are_not_written book book_update 5%positive
              elantris shelf st0 9%positive (<["Pages" := VNum 500]> elantris)
              (World {[ 9%positive := <["Pages" := VNum 500]> elantris ]}
                 [CreateEdge VNull VNull VNull VNull VNull]))
    as (st0' & Hst0' & Hsame);
    [reflexivity | reflexivity | exact Hst0
    | vm_compute; reflexivity | vm_compute; reflexivity | | ].
  - intros name Hname. change (name ∈ ["Genre"; "Author"; "Likes[]"]) in Hname.
    rewrite !elem_of_cons in Hname.
    destruct Hname as [->|[->|[->|?%elem_of_nil]]]; [| | |done];
      vm_compute; reflexivity.
  - by exists st0, st0'.
Defined.
